(** * A shallow embedding of the tree/scatter morphing scene

    The scene morphs several populations of entities between a cone-shaped
    "tree" layout and a spherical "scattered" layout.  The embedded sources are

      - [src/utils/geometry.ts]          (position samplers),
      - [src/types.ts]                   (the shared data shapes),
      - [src/components/Foliage.tsx]     (shader-driven points),
      - [src/components/BottomParticles.tsx] (shader-driven star particles),
      - [src/components/BottomGifts.tsx] (instanced gift boxes),
      - the component exporting [Ornaments] (instanced ornament groups and
        the top star),
      - the [App] component (the toggle that drives every population).

    Numbers.  JavaScript numbers and GLSL floats are IEEE-754 values.  They are
    read here in two ways, both instances of one interface [Number]:

      - [R]: exact real arithmetic (rounding is abstracted away);
      - [jsnum]: reals extended with [NaN] and the two infinities, with the
        IEEE rules for those special values (rounding still abstracted).

    The per-frame code is written once, over the interface, and is read at
    [R] for the arithmetic facts and at [jsnum] when a special value enters. *)

From Stdlib Require Import Reals Lra Lia List ZArith Bool.
Import ListNotations.

Set Implicit Arguments.

(* ================================================================== *)
(** * Numbers *)

Declare Scope num_scope.
Delimit Scope num_scope with num.

(** The operations the per-frame code uses on numbers. *)
Class Number (N : Type) : Type := {
  lit  : R -> N;            (* a numeric literal of the source *)
  nadd : N -> N -> N;
  nsub : N -> N -> N;
  nmul : N -> N -> N;
  nsin : N -> N;            (* Math.sin *)
  ncos : N -> N;            (* Math.cos *)
  nlt  : N -> N -> bool     (* the JavaScript comparison [a < b] *)
}.

Arguments lit {N _} _%_R.

Infix "+" := nadd : num_scope.
Infix "-" := nsub : num_scope.
Infix "*" := nmul : num_scope.
Infix "<?" := nlt : num_scope.

(** ** Exact reals *)

Definition Rltb (a b : R) : bool := if Rlt_dec a b then true else false.

#[export] Instance R_Number : Number R := {
  lit x := x;
  nadd := Rplus;
  nsub := Rminus;
  nmul := Rmult;
  nsin := sin;
  ncos := cos;
  nlt := Rltb
}.

(** ** Reals with the IEEE special values *)

Inductive jsnum : Type :=
| Fin (x : R)      (* a finite number *)
| PInf             (* +Infinity *)
| NInf             (* -Infinity *)
| NaN.


Definition is_finite (a : jsnum) : bool :=
  match a with Fin _ => true | _ => false end.










(* ================================================================== *)
(** * Shared data shapes ([src/types.ts] and three.js value types) *)

Inductive TreeState : Type := SCATTERED | TREE_SHAPE.

Record Vector3 (N : Type) : Type := mkVector3 { vx : N; vy : N; vz : N }.
Record Euler (N : Type) : Type := mkEuler { ex : N; ey : N; ez : N }.

(** [interface DualPosition] *)
Record DualPosition (N : Type) : Type := mkDualPosition {
  treePos : Vector3 N;
  scatterPos : Vector3 N;
  rotation : Euler N;
  scale : N;
  speed : N;
  phase : N
}.

(** What one frame writes for one instance.  [Object3D.updateMatrix] composes
    the instance matrix from exactly these three fields; the matrix product
    itself belongs to three.js and is not unfolded. *)
Record Transform (N : Type) : Type := mkTransform {
  t_position : Vector3 N;
  t_rotation : Euler N;
  t_scale : Vector3 N
}.

Section Vectors.
Context {N : Type} `{Number N}.
Local Open Scope num_scope.

(** [Vector3.lerpVectors(v1, v2, alpha)] of three.js:
    each component is [v1 + (v2 - v1) * alpha]. *)
Definition lerpVectors (v1 v2 : Vector3 N) (alpha : N) : Vector3 N :=
  mkVector3 (vx v1 + (vx v2 - vx v1) * alpha)
            (vy v1 + (vy v2 - vy v1) * alpha)
            (vz v1 + (vz v2 - vz v1) * alpha).

(** [Vector3.setScalar(s)] *)
Definition setScalar (s : N) : Vector3 N := mkVector3 s s s.

(** [goal = state === TreeState.TREE_SHAPE ? 1 : 0] *)
Definition goal_of (state : TreeState) : N :=
  match state with TREE_SHAPE => lit 1 | SCATTERED => lit 0 end.
End Vectors.

(** Unfolds the number interface at [R]. *)
Ltac real_ops :=
  cbn [nadd nsub nmul nsin ncos nlt lit R_Number goal_of] in *.

(* ================================================================== *)
(** * The random source

    [Math.random()] returns the next number of a sequence of draws, each in
    [[0, 1)].  The sequence is the state: a draw takes its head and leaves
    its tail. *)

Definition Draws : Type := nat -> R.

Definition in_unit_interval (s : Draws) : Prop := forall n, (0 <= s n < 1)%R.

Definition Rand (A : Type) : Type := Draws -> A * Draws.

Definition ret {A : Type} (a : A) : Rand A := fun s => (a, s).

Definition bind {A B : Type} (m : Rand A) (k : A -> Rand B) : Rand B :=
  fun s => let (a, s') := m s in k a s'.

Notation "x <- m ;; k" := (bind m (fun x => k))
  (at level 61, m at next level, right associativity).

Definition Math_random : Rand R :=
  fun s => (s 0%nat, fun n => s (S n)).

(** [for (let i = 0; i < count; i++) body]: [turns] is the number of turns
    still to run and [i] the loop variable; the loop is entered with
    [turns = count] and [i = 0]. *)
Fixpoint for_loop {St : Type} (turns i : nat) (body : nat -> St -> Rand St)
                  (st : St) : Rand St :=
  match turns with
  | O => ret st
  | S turns' => st' <- body i st ;; for_loop turns' (S i) body st'
  end.

(* ================================================================== *)
(** * Typed arrays

    A [Float32Array] is a list of numbers of fixed length (the rounding to
    32 bits is abstracted away, as all rounding is). *)

(** [new Float32Array(n)]: [n] zeros. *)
Definition Float32Array (n : nat) : list R := repeat 0%R n.

(** [arr[i] = v]: a write past the end of a typed array is ignored. *)
Fixpoint write_at (i : nat) (v : R) (arr : list R) : list R :=
  match arr, i with
  | [], _ => []
  | _ :: rest, O => v :: rest
  | a :: rest, S i' => a :: write_at i' v rest
  end.

(** The three writes [arr[i * 3] = v.x; arr[i * 3 + 1] = v.y;
    arr[i * 3 + 2] = v.z], in that order. *)
Definition write3 (i : nat) (v : Vector3 R) (arr : list R) : list R :=
  write_at (i * 3 + 2) (vz v)
    (write_at (i * 3 + 1) (vy v)
       (write_at (i * 3) (vx v) arr)).

(** The item of index [i] of a buffer attribute with [itemSize = 3], and
    of one with [itemSize = 1]. *)
Definition read3 (arr : list R) (i : nat) : Vector3 R :=
  mkVector3 (nth (i * 3) arr 0%R) (nth (i * 3 + 1) arr 0%R) (nth (i * 3 + 2) arr 0%R).

Definition read1 (arr : list R) (i : nat) : R := nth i arr 0%R.

(* ================================================================== *)
(** * [src/utils/geometry.ts] *)

Module Geometry.
Local Open Scope R_scope.

Definition TREE_HEIGHT : R := 14.
Definition TREE_RADIUS_BASE : R := 5.5.
Definition SCATTER_RADIUS : R := 25.

(** [Math.cbrt]: the real cube root, odd in its argument. *)
Definition Math_cbrt (x : R) : R :=
  if Rlt_dec 0 x then Rpower x (/ 3)
  else if Rlt_dec x 0 then - Rpower (- x) (/ 3)
  else 0.

(** Generates a random point inside a cone (tree shape). *)
Definition getTreePosition : Rand (Vector3 R) :=
  u_y <- Math_random ;;
  let y := u_y * TREE_HEIGHT - TREE_HEIGHT / 2 in
  (* [hNorm] is not used afterwards, in the source either *)
  let hNorm := 1 - ((y + TREE_HEIGHT / 2) / TREE_HEIGHT) in
  let progressUp := (y + TREE_HEIGHT / 2) / TREE_HEIGHT in
  let currentRadius := TREE_RADIUS_BASE * (1 - progressUp) in
  u_angle <- Math_random ;;
  let angle := u_angle * PI * 2 in
  u_r <- Math_random ;;
  let r := sqrt u_r * currentRadius in
  let x := r * cos angle in
  let z := r * sin angle in
  ret (mkVector3 x y z).

(** Generates a random point inside a sphere (scattered shape). *)
Definition getScatterPosition : Rand (Vector3 R) :=
  u_r <- Math_random ;;
  let r := Math_cbrt u_r * SCATTER_RADIUS in
  u_theta <- Math_random ;;
  let theta := u_theta * PI * 2 in
  u_phi <- Math_random ;;
  let phi := acos (2 * u_phi - 1) in
  let x := r * sin phi * cos theta in
  let y := r * sin phi * sin theta in
  let z := r * cos phi in
  ret (mkVector3 x y z).

(** Euclidean distance from the origin, and horizontal distance from the
    vertical axis. *)
Definition norm (p : Vector3 R) : R :=
  sqrt (vx p * vx p + vy p * vy p + vz p * vz p).

Definition horizontal_radius (p : Vector3 R) : R :=
  sqrt (vx p * vx p + vz p * vz p).
End Geometry.

(* ================================================================== *)
(** * GLSL built-ins used by the two vertex shaders (over [R]) *)

Module GLSL.
Local Open Scope R_scope.

(** [mix(x, y, a) = x * (1 - a) + y * a] *)
Definition mix (x y a : R) : R := x * (1 - a) + y * a.

Definition mix3 (x y : Vector3 R) (a : R) : Vector3 R :=
  mkVector3 (mix (vx x) (vx y) a) (mix (vy x) (vy y) a) (mix (vz x) (vz y) a).

(** [pow(x, y)]: the result is undefined when [x < 0], and when [x = 0] and
    [y <= 0]; [None] stands for "undefined". *)
Definition pow (x y : R) : option R :=
  if Rlt_dec 0 x then Some (Rpower x y)
  else if Rlt_dec x 0 then None
  else if Rlt_dec 0 y then Some 0
  else None.

(** [floor] and [mod(x, y) = x - y * floor(x / y)] *)
Definition floor (x : R) : R := IZR (Int_part x).

Definition mod_ (x y : R) : R := x - y * floor (x / y).

(** [clamp(x, lo, hi) = min(max(x, lo), hi)] *)
Definition clamp (x lo hi : R) : R := Rmin (Rmax x lo) hi.

(** [smoothstep(edge0, edge1, x)], defined for [edge0 < edge1]. *)
Definition smoothstep (edge0 edge1 x : R) : R :=
  let t := clamp ((x - edge0) / (edge1 - edge0)) 0.0 1.0 in
  t * t * (3.0 - 2.0 * t).

(** [length] of a [vec2] *)
Definition length2 (x y : R) : R := sqrt (x * x + y * y).
End GLSL.

(** What a fragment shader leaves for one fragment: it is discarded, or it
    gets a colour and an opacity ([gl_FragColor], before the tone-mapping
    and colour-space chunks of three.js that both shaders include), or the
    result is undefined because a built-in was used outside its domain. *)
Inductive Fragment : Type :=
| Discard
| FragColor (rgb : Vector3 R) (alpha : R)
| UndefinedFragment.

(** ** The smoothing function of the frames

    Every [useFrame] callback calls [damp(object, property, target,
    smoothTime, delta)] of the package [maath/easing], which overwrites
    [object[property]].  The body of [damp] is not part of the sources.  In
    the frames below it is a parameter: a function from the property's
    value, the target, the smooth time and the frame time to the property's
    new value, the shape the spec gives it
    ([current <- damp(current, goal, timeConstant, deltaTime)]).  The
    source hands [damp] the object that holds the property, not the value;
    whatever else [damp] may keep on that object from one frame to the next
    is not part of this reading, and no statement below compares what
    [damp] returns in one frame with what it returns in another. *)

(** The two uniforms a shader-driven population rewrites every frame. *)
Record Uniforms (N : Type) : Type := mkUniforms { uTime : N; uProgress : N }.

(* ================================================================== *)
(** * [src/components/Foliage.tsx] *)

Module Foliage.

Definition COUNT : Z := 15000.

(** The per-vertex attributes. *)
Record Attributes : Type := mkAttributes {
  aScatterPos : Vector3 R;
  aTreePos : Vector3 R;
  aRandom : R
}.

Section VertexShader.
Local Open Scope R_scope.

(** [float easeInOutCubic(float x)] *)
Definition easeInOutCubic (x : R) : option R :=
  if Rlt_dec x 0.5 then Some (4.0 * x * x * x)
  else match GLSL.pow (-2.0 * x + 2.0) 3.0 with
       | Some p => Some (1.0 - p / 2.0)
       | None => None
       end.

(** The first two statements of [main]: the eased progress and the mixed
    position, before any offset is added. *)
Definition mixed_position (u : Uniforms R) (a : Attributes) : option (R * Vector3 R) :=
  match easeInOutCubic (uProgress u) with
  | Some t => Some (t, GLSL.mix3 (aScatterPos a) (aTreePos a) t)
  | None => None
  end.

(** [main], up to the model-space position [pos] that is handed to the
    model-view and projection matrices.  The point size and the opacity,
    which [main] computes after that, are left out. *)
Definition main (u : Uniforms R) (a : Attributes) : option (Vector3 R) :=
  match mixed_position u a with
  | Some (t, pos) =>
      let noiseFreq := GLSL.mix 0.5 2.5 t in
      let noiseAmp := GLSL.mix 0.8 0.15 t in
      let jitter := sin (uTime u * 5.0 + aRandom a * 100.0) * 0.05 in
      let pos_x := vx pos + sin (uTime u * noiseFreq + aRandom a * 10.0) * noiseAmp in
      let pos_y := vy pos + (cos (uTime u * noiseFreq * 0.8 + aRandom a * 10.0) * noiseAmp + jitter) in
      let pos_z := vz pos + sin (uTime u * noiseFreq * 1.2 + aRandom a * 10.0) * noiseAmp in
      Some (mkVector3 pos_x pos_y pos_z)
  | None => None
  end.
End VertexShader.

Section Frame.
Context {N : Type} `{Number N}.
Variable damp : N -> N -> N -> N -> N.

(** The [useFrame] callback: the elapsed time is stored, and the progress
    uniform is damped toward the goal with smooth time 1.5. *)
Definition useFrame (u : Uniforms N) (state : TreeState)
                    (elapsedTime delta : N) : Uniforms N :=
  let targetProgress := goal_of state in
  mkUniforms elapsedTime (damp (uProgress u) targetProgress (lit 1.5) delta).
End Frame.

Section MoreOfTheShaders.
Local Open Scope R_scope.

(** [vAlpha = 0.6 + 0.4 * sin(uTime * 3.0 + aRandom * 20.0)] *)
Definition vAlpha (u : Uniforms R) (a : Attributes) : R :=
  0.6 + 0.4 * sin (uTime u * 3.0 + aRandom a * 20.0).

(** [gl_PointSize = (4.0 * aRandom + 2.5) * (30.0 / -mvPosition.z)], with
    [mv_z] the view-space depth [mvPosition.z] that the camera gives. *)
Definition gl_PointSize (a : Attributes) (mv_z : R) : R :=
  (4.0 * aRandom a + 2.5) * (30.0 / - mv_z).

(** [main] of the fragment shader. *)
Definition fragment_main (uColorPrimary uColorHighlight : Vector3 R)
                         (alpha_in : R) (gl_PointCoord : R * R) : Fragment :=
  let coord_x := fst gl_PointCoord - 0.5 in
  let coord_y := snd gl_PointCoord - 0.5 in
  let dist := GLSL.length2 coord_x coord_y in
  if Rlt_dec 0.5 dist then Discard
  else
    let strength := 1.0 - (dist * 2.0) in
    match GLSL.pow strength 1.5 with
    | None => UndefinedFragment
    | Some strength =>
        let finalColor :=
          GLSL.mix3 uColorHighlight uColorPrimary (GLSL.smoothstep 0.0 0.4 dist) in
        FragColor finalColor (alpha_in * strength)
    end.
End MoreOfTheShaders.

Section Construction.

(** The four arrays that the geometry is built from. *)
Record GeometryData : Type := mkGeometryData {
  positions : list R;
  scatterPositions : list R;
  treePositions : list R;
  randoms : list R
}.

(** One turn of the loop that fills the arrays. *)
Definition fill (i : nat) (d : GeometryData) : Rand GeometryData :=
  treeVec <- Geometry.getTreePosition ;;
  scatterVec <- Geometry.getScatterPosition ;;
  (* default position = tree position *)
  let p := write3 i treeVec (positions d) in
  let tp := write3 i treeVec (treePositions d) in
  let sp := write3 i scatterVec (scatterPositions d) in
  u <- Math_random ;;
  let r := write_at i u (randoms d) in
  ret (mkGeometryData p sp tp r).

(** The body of the first [useMemo], for [count] points. *)
Definition geometry_data (count : nat) : Rand GeometryData :=
  let p := Float32Array (count * 3) in
  let sp := Float32Array (count * 3) in
  let tp := Float32Array (count * 3) in
  let r := Float32Array count in
  for_loop count 0 fill (mkGeometryData p sp tp r).

Definition data : Rand GeometryData := geometry_data (Z.to_nat COUNT).
End Construction.

End Foliage.

(* ================================================================== *)
(** * [src/components/BottomParticles.tsx] *)

Module BottomParticles.

Definition COUNT : Z := 400.

Record Attributes : Type := mkAttributes {
  aScatterPos : Vector3 R;
  aBasePos : Vector3 R;
  aRandom : R;
  aSpeed : R;
  aScale : R
}.

Section VertexShader.
Local Open Scope R_scope.

(** [float easeInOutCubic(float x)], the same text as in the foliage shader. *)
Definition easeInOutCubic (x : R) : option R :=
  if Rlt_dec x 0.5 then Some (4.0 * x * x * x)
  else match GLSL.pow (-2.0 * x + 2.0) 3.0 with
       | Some p => Some (1.0 - p / 2.0)
       | None => None
       end.

(** [rise = mod(uTime * aSpeed * 2.0 + aRandom * 10.0, 4.0)] *)
Definition rise (u : Uniforms R) (a : Attributes) : R :=
  GLSL.mod_ (uTime u * aSpeed a * 2.0 + aRandom a * 10.0) 4.0.

(** [animatedBasePos = aBasePos; animatedBasePos.y += rise] *)
Definition animatedBasePos (u : Uniforms R) (a : Attributes) : Vector3 R :=
  mkVector3 (vx (aBasePos a)) (vy (aBasePos a) + rise u a) (vz (aBasePos a)).

(** [main], up to the model-space position [finalPos].  The opacity fade
    and the point size, which do not enter the position, are left out. *)
Definition main (u : Uniforms R) (a : Attributes) : option (Vector3 R) :=
  match easeInOutCubic (uProgress u) with
  | Some t => Some (GLSL.mix3 (aScatterPos a) (animatedBasePos u a) t)
  | None => None
  end.
End VertexShader.

Section Frame.
Context {N : Type} `{Number N}.
Variable damp : N -> N -> N -> N -> N.

Definition useFrame (u : Uniforms N) (state : TreeState)
                    (elapsedTime delta : N) : Uniforms N :=
  let targetProgress := goal_of state in
  mkUniforms elapsedTime (damp (uProgress u) targetProgress (lit 1.2) delta).
End Frame.

Section MoreOfTheShaders.
Local Open Scope R_scope.

(** [lifeFade]: fades in at the start of the rise and out toward its end. *)
Definition lifeFade (u : Uniforms R) (a : Attributes) : R :=
  let lifeFade := 1.0 - GLSL.smoothstep 0.0 4.0 (rise u a) in
  lifeFade * GLSL.smoothstep 0.0 0.5 (rise u a).

(** [vAlpha = lifeFade * mix(0.3, 1.0, t)] *)
Definition vAlpha (u : Uniforms R) (a : Attributes) : option R :=
  match easeInOutCubic (uProgress u) with
  | Some t => Some (lifeFade u a * GLSL.mix 0.3 1.0 t)
  | None => None
  end.

(** [gl_PointSize = (50.0 * aScale * stateScale) * (20.0 / -mvPosition.z)],
    with [mv_z] the view-space depth [mvPosition.z]. *)
Definition gl_PointSize (u : Uniforms R) (a : Attributes) (mv_z : R) : option R :=
  match easeInOutCubic (uProgress u) with
  | Some t =>
      let stateScale := GLSL.mix 0.5 1.0 t in
      Some ((50.0 * aScale a * stateScale) * (20.0 / - mv_z))
  | None => None
  end.

(** [float sdStar5(in vec2 p, in float r, in float rf)]: the signed
    distance to a five-pointed star. *)
Definition GLSL_sign (x : R) : R :=
  if Rlt_dec 0 x then 1 else if Rlt_dec x 0 then -1 else 0.

Definition sdStar5 (p : R * R) (r rf : R) : R :=
  let k1x := 0.809016994375 in
  let k1y := -0.587785252292 in
  let k2x := - k1x in
  let k2y := k1y in
  let px := Rabs (fst p) in
  let py := snd p in
  let m1 := 2.0 * Rmax (k1x * px + k1y * py) 0.0 in
  let px := px - m1 * k1x in
  let py := py - m1 * k1y in
  let m2 := 2.0 * Rmax (k2x * px + k2y * py) 0.0 in
  let px := px - m2 * k2x in
  let py := py - m2 * k2y in
  let px := Rabs px in
  let py := py - r in
  let bax := rf * (- k1y) - 0.0 in
  let bay := rf * k1x - 1.0 in
  let h := GLSL.clamp ((px * bax + py * bay) / (bax * bax + bay * bay)) 0.0 r in
  GLSL.length2 (px - bax * h) (py - bay * h) * GLSL_sign (py * bax - px * bay).

(** [main] of the fragment shader.  [mat2(c, -s, s, c)] lists the matrix
    by columns. *)
Definition fragment_main (uColor : Vector3 R) (time alpha_in random_in : R)
                         (gl_PointCoord : R * R) : Fragment :=
  let px := fst gl_PointCoord * 2.0 - 1.0 in
  let py := snd gl_PointCoord * 2.0 - 1.0 in
  let rotSpeed := 2.0 * (random_in - 0.5) in
  let theta := time * rotSpeed in
  let c := cos theta in
  let s := sin theta in
  let qx := c * px + s * py in
  let qy := - s * px + c * py in
  let dist := sdStar5 (qx, qy) 0.5 0.45 in
  let alphaShape := 1.0 - GLSL.smoothstep 0.0 0.02 dist in
  if Rlt_dec alphaShape 0.01 then Discard
  else
    let len := GLSL.length2 qx qy in
    let color := GLSL.mix3 (mkVector3 1.0 1.0 1.0) uColor (len * 1.5) in
    FragColor color (alpha_in * alphaShape).
End MoreOfTheShaders.

Section Construction.
Local Open Scope R_scope.

(** The five arrays that the geometry is built from; [positions] is bound
    both to the [position] and to the [aBasePos] attribute. *)
Record ParticleData : Type := mkParticleData {
  positions : list R;
  scatterPositions : list R;
  randoms : list R;
  speeds : list R;
  scales : list R
}.

(** One turn of the loop that fills the arrays. *)
Definition fill (i : nat) (d : ParticleData) : Rand ParticleData :=
  (* 1. base positions: a disk at the bottom of the tree *)
  u_radius <- Math_random ;;
  let radius := sqrt u_radius * 6.5 in
  u_angle <- Math_random ;;
  let angle := u_angle * PI * 2 in
  let x := cos angle * radius in
  let z := sin angle * radius in
  u_y <- Math_random ;;
  let y := -7.0 + (u_y * 1.0) in
  let basePos := write3 i (mkVector3 x y z) (positions d) in
  (* 2. scatter positions *)
  scat <- Geometry.getScatterPosition ;;
  let scatPos := write3 i scat (scatterPositions d) in
  (* 3. attributes *)
  u_rand <- Math_random ;;
  let rands := write_at i u_rand (randoms d) in
  u_speed <- Math_random ;;
  let spds := write_at i (0.5 + u_speed * 0.5) (speeds d) in
  u_scale <- Math_random ;;
  let scls := write_at i (0.5 + u_scale * 0.8) (scales d) in
  ret (mkParticleData basePos scatPos rands spds scls).

(** The body of the first [useMemo], for [count] particles. *)
Definition geometry_data (count : nat) : Rand ParticleData :=
  let basePos := Float32Array (count * 3) in
  let scatPos := Float32Array (count * 3) in
  let rands := Float32Array count in
  let spds := Float32Array count in
  let scls := Float32Array count in
  for_loop count 0 fill (mkParticleData basePos scatPos rands spds scls).

Definition data : Rand ParticleData := geometry_data (Z.to_nat COUNT).
End Construction.

End BottomParticles.

(* ================================================================== *)
(** * Helpers that mirror in-place updates of a three.js vector *)

Section InPlace.
Context {N : Type} `{Number N}.
Local Open Scope num_scope.

(** [v.x += d] and [v.y += d] *)
Definition add_x (v : Vector3 N) (d : N) : Vector3 N :=
  mkVector3 (vx v + d) (vy v) (vz v).

Definition add_y (v : Vector3 N) (d : N) : Vector3 N :=
  mkVector3 (vx v) (vy v + d) (vz v).
End InPlace.

(** [Vector3.length()] and [Vector3.normalize()] of three.js; the latter is
    [divideScalar(length() || 1)], and [divideScalar(s)] multiplies by
    [1 / s]. *)
Definition Vector3_length (v : Vector3 R) : R :=
  sqrt (vx v * vx v + vy v * vy v + vz v * vz v).

Definition normalize (v : Vector3 R) : Vector3 R :=
  (let len := Vector3_length v in
   let divisor := if Req_dec_T len 0 then 1 else len in
   mkVector3 (vx v * (1 / divisor)) (vy v * (1 / divisor)) (vz v * (1 / divisor)))%R.

(* ================================================================== *)
(** * [src/components/BottomGifts.tsx] *)

Module BottomGifts.

Definition GIFT_COUNT : Z := 12.

(** One element of [data]. *)
Record GiftItem (N : Type) : Type := mkGiftItem {
  treePos : Vector3 N;
  scatterPos : Vector3 N;
  rotationY : N;             (* resting rotation, only about the y axis *)
  tumbleAxis : Vector3 N;
  scale : N;
  phase : N;
  speed : N
}.

(** What persists between frames: the progress scalar and the three
    instance buffers (box, ribbon 1, ribbon 2). *)
Record State (N : Type) : Type := mkState {
  targetProgress : N;
  meshMatrices : list (Transform N);
  ribbon1Matrices : list (Transform N);
  ribbon2Matrices : list (Transform N)
}.

Section Frame.
Context {N : Type} `{Number N}.
Variable damp : N -> N -> N -> N -> N.
Local Open Scope num_scope.

(** The body of [data.forEach], for one [item], with [t] the damped
    progress and [time] the elapsed time. *)
Definition item_transform (item : GiftItem N) (t time : N) : Transform N :=
  (* 1. position interpolation *)
  let currentPos := lerpVectors (scatterPos item) (treePos item) t in
  let '(currentPos, rot) :=
    if t <? lit 0.99 then
      (* 2. floating effect when scattered *)
      let floatAmp := (lit 1 - t) * lit 2.0 in
      let currentPos :=
        add_y currentPos (nsin (time * speed item + phase item) * floatAmp) in
      let currentPos :=
        add_x currentPos
              (ncos (time * lit 0.5 * speed item + phase item) * floatAmp * lit 0.5) in
      let tumbleSpeed := speed item * lit 0.25 in
      (currentPos,
       mkEuler (time * tumbleSpeed * (lit 1 - t))
               (time * tumbleSpeed * (lit 1 - t) + rotationY item)
               (time * tumbleSpeed * (lit 1 - t)))
    else
      (* stable rotation when assembled *)
      (currentPos, mkEuler (lit 0) (rotationY item) (lit 0)) in
  mkTransform currentPos rot
    (setScalar (scale item * (lit 0.95 + lit 0.05 * nsin (time + phase item)))).

(** The [useFrame] callback.  [mounted] says whether the three mesh
    references are set; when one is missing the callback returns at once. *)
Definition useFrame (mounted : bool) (data : list (GiftItem N))
                    (st : State N) (state : TreeState)
                    (elapsedTime delta : N) : State N :=
  if negb mounted then st
  else
    let goal := goal_of state in
    let t := damp (targetProgress st) goal (lit 1.0) delta in
    let time := elapsedTime in
    let matrices := map (fun item => item_transform item t time) data in
    mkState t matrices matrices matrices.
End Frame.

Section Construction.
Local Open Scope R_scope.

(** The callback of [Array.from({ length: GIFT_COUNT }).map]: one gift. *)
Definition make_item : Rand (GiftItem R) :=
  (* placed around the base of the tree *)
  u_angle <- Math_random ;;
  let angle := u_angle * PI * 2 in
  u_r <- Math_random ;;
  let r := 3.0 + u_r * 4.0 in
  let x := cos angle * r in
  let z := sin angle * r in
  u_s <- Math_random ;;
  let s := 0.4 + u_s * 0.4 in
  (* sits on the floor: the base is at -7, the box centre at half its height *)
  let y := -7.0 + (s * 0.5) in
  scatter <- Geometry.getScatterPosition ;;
  u_rotation <- Math_random ;;
  a_x <- Math_random ;;
  a_y <- Math_random ;;
  a_z <- Math_random ;;
  u_phase <- Math_random ;;
  u_speed <- Math_random ;;
  ret (mkGiftItem (mkVector3 x y z) scatter
                  (u_rotation * PI * 2)
                  (normalize (mkVector3 a_x a_y a_z))
                  s
                  (u_phase * PI * 2)
                  (0.5 + u_speed)).

(** [map] calls the callback once per index, in increasing order. *)
Fixpoint map_make (n : nat) : Rand (list (GiftItem R)) :=
  match n with
  | O => ret []
  | S n' =>
      item <- make_item ;;
      rest <- map_make n' ;;
      ret (item :: rest)
  end.

Definition data : Rand (list (GiftItem R)) := map_make (Z.to_nat GIFT_COUNT).
End Construction.

End BottomGifts.

(* ================================================================== *)
(** * The [Ornaments] component: [OrnamentGroup] and [TopStar] *)

Module Ornaments.

Definition SPHERE_SILVER_COUNT : Z := 130.
Definition SPHERE_PINK_COUNT : Z := 80.
Definition BOX_COUNT : Z := 45.
Definition STAR_COUNT : Z := 150.
Definition DIAMOND_COUNT : Z := 60.

(** [type: 'sphere' | 'box' | 'star' | 'diamond'] *)
Inductive OrnamentType : Type := sphere | box | star | diamond.

Section Construction.
Local Open Scope R_scope.

(** [scaleBase] and [weight] of one item.  Only a sphere draws a number. *)
Definition scaleBase_weight (type : OrnamentType) : Rand (R * R) :=
  match type with
  | box => ret (0.45, 0.2)
  | sphere =>
      u <- Math_random ;;
      ret ((if Rlt_dec 0.8 u then 0.45 else 0.25), 0.5)
  | star => ret (0.15, 0.9)
  | diamond => ret (0.35, 0.6)
  end.

(** One turn of the construction loop: the item that is pushed. *)
Definition make_item (type : OrnamentType) : Rand (DualPosition R) :=
  sw <- scaleBase_weight type ;;
  let (scaleBase, weight) := sw in
  u_var <- Math_random ;;
  let scaleVar := u_var * 0.15 in
  tree <- Geometry.getTreePosition ;;
  scatter <- Geometry.getScatterPosition ;;
  u_rx <- Math_random ;;
  u_ry <- Math_random ;;
  u_speed <- Math_random ;;
  u_phase <- Math_random ;;
  ret (mkDualPosition tree scatter
         (mkEuler (u_rx * PI) (u_ry * PI) 0)
         (scaleBase + scaleVar)
         ((0.2 + u_speed * 0.8) * (1 + weight))
         (u_phase * PI * 2)).

(** [for (let i = 0; i < count; i++) items.push(...)], with [remaining]
    the number of turns still to run. *)
Fixpoint push_items (type : OrnamentType) (remaining : nat)
                    (items : list (DualPosition R)) : Rand (list (DualPosition R)) :=
  match remaining with
  | O => ret items
  | S remaining' =>
      item <- make_item type ;;
      push_items type remaining' (items ++ [item])
  end.

(** The [data] of an [OrnamentGroup]: the loop runs for [i = 0, 1, ...]
    while [i < count], that is [Z.to_nat count] times (never, when
    [count <= 0]). *)
Definition data (type : OrnamentType) (count : Z) : Rand (list (DualPosition R)) :=
  push_items type (Z.to_nat count) [].
End Construction.

(** What persists between frames of an [OrnamentGroup]: the progress scalar,
    the main instance buffer and one buffer per mounted extra layer. *)
Record State (N : Type) : Type := mkState {
  targetProgress : N;
  meshMatrices : list (Transform N);
  extraMatrices : list (list (Transform N))
}.

(** What persists between frames of the [TopStar]. *)
Record StarState (N : Type) : Type := mkStarState {
  progress : N;
  star_position : Vector3 N;
  star_rotation : Euler N
}.

Section Frame.
Context {N : Type} `{Number N}.
Variable damp : N -> N -> N -> N -> N.
Local Open Scope num_scope.

(** The body of [data.forEach] in [OrnamentGroup]. *)
Definition item_transform (type : OrnamentType) (item : DualPosition N)
                          (t time : N) : Transform N :=
  let currentPos := lerpVectors (scatterPos item) (treePos item) t in
  (* float animation *)
  let floatAmp :=
    (lit 1 - t) * (match type with star => lit 3.0 | _ => lit 1.5 end) in
  let yOffset := nsin (time * speed item + phase item) * floatAmp in
  let xOffset := ncos (time * speed item * lit 0.5 + phase item) * floatAmp * lit 0.5 in
  let position := add_x (add_y currentPos yOffset) xOffset in
  (* rotation *)
  let rx := ex (rotation item) + time * lit 0.2 * (lit 1 - t) * speed item in
  let spinSpeed :=
    match type with diamond | star => lit 0.5 | _ => lit 0.1 end in
  let ry := ey (rotation item) + time * spinSpeed * speed item in
  let rz := ez (rotation item) + time * lit 0.1 * (lit 1 - t) in
  (* scale pulse *)
  mkTransform position (mkEuler rx ry rz)
    (setScalar (scale item * (lit 0.85 + lit 0.15 * nsin (time * lit 2 + phase item)))).

(** The [useFrame] callback of [OrnamentGroup]. *)
Definition useFrame (mounted : bool) (type : OrnamentType)
                    (data : list (DualPosition N))
                    (st : State N) (state : TreeState)
                    (elapsedTime delta : N) : State N :=
  if negb mounted then st
  else
    let goal := goal_of state in
    let t := damp (targetProgress st) goal (lit 1.2) delta in
    let time := elapsedTime in
    let matrices := map (fun item => item_transform type item t time) data in
    mkState t matrices (map (fun _ => matrices) (extraMatrices st)).

(** The [useFrame] callback of [TopStar], whose tree position is the fixed
    anchor [(0, 7.8, 0)]. *)
Definition TopStar_treePos : Vector3 N := mkVector3 (lit 0) (lit 7.8) (lit 0).

Definition TopStar_useFrame (mounted : bool) (scatter : Vector3 N)
                            (st : StarState N) (state : TreeState)
                            (elapsedTime delta : N) : StarState N :=
  if negb mounted then st
  else
    let goal := goal_of state in
    let t := damp (progress st) goal (lit 1.2) delta in
    let currentPos := lerpVectors scatter TopStar_treePos t in
    let rot := star_rotation st in
    (* rotation.y += delta * 0.8 *)
    let ry := ey rot + delta * lit 0.8 in
    if t <? lit 0.9 then
      mkStarState t currentPos
        (mkEuler (nsin (elapsedTime * lit 0.5) * (lit 1 - t))
                 ry
                 (ncos (elapsedTime * lit 0.3) * (lit 1 - t)))
    else
      mkStarState t currentPos
        (mkEuler (damp (ex rot) (lit 0) (lit 0.25) delta)
                 ry
                 (damp (ez rot) (lit 0) (lit 0.25) delta)).
End Frame.

Section StarShape.
Local Open Scope R_scope.

(** The outline of the top star: the loop over [i < points * 2] visits the
    vertices in order ([moveTo] for the first, [lineTo] for the others). *)
Definition outerRadius : R := 1.0.
Definition innerRadius : R := 0.45.
Definition points : nat := 5.

Definition shape_vertex (i : nat) : R * R :=
  let angle := (INR i * PI) / INR points in
  let r := if Nat.even i then outerRadius else innerRadius in
  let x := cos (angle - PI / 2) * r in
  let y := sin (angle - PI / 2) * r in
  (x, y).

Definition shape_vertices : list (R * R) :=
  map shape_vertex (seq 0 (points * 2)).
End StarShape.

End Ornaments.

(* ================================================================== *)
(** * The [App] component: the toggle *)

Module App.

(** [useState<TreeState>(TreeState.TREE_SHAPE)] *)
Definition initialState : TreeState := TREE_SHAPE.

(** [prev === TreeState.TREE_SHAPE ? TreeState.SCATTERED : TreeState.TREE_SHAPE] *)
Definition toggleState (prev : TreeState) : TreeState :=
  match prev with TREE_SHAPE => SCATTERED | SCATTERED => TREE_SHAPE end.

(** The text of the button. *)
Inductive Label : Type := DISASSEMBLE | ASSEMBLE.

Definition buttonLabel (treeState : TreeState) : Label :=
  match treeState with TREE_SHAPE => DISASSEMBLE | SCATTERED => ASSEMBLE end.

(** The state after [n] clicks on the button. *)
Fixpoint clicks (n : nat) (st : TreeState) : TreeState :=
  match n with
  | O => st
  | S n' => toggleState (clicks n' st)
  end.

End App.

(* ================================================================== *)
(** * The progress controller's smoothing step *)

Module Progress.
Local Open Scope R_scope.

(** Modelled from the spec: [damp] is imported from the package
    [maath/easing]; only its call sites are in the sources.  The spec
    describes the update [current <- damp(current, goal, timeConstant,
    deltaTime)] as "an exponential smoothing step" toward [goal]: the
    distance to the goal decays by the factor [exp(-deltaTime/timeConstant)]. *)
Definition damp (current goal timeConstant deltaTime : R) : R :=
  goal + (current - goal) * exp (- (deltaTime / timeConstant)).

(** Modelled from the spec: the same step on numbers that may be special
    values.  The spec asks that a non-finite [deltaTime] "be treated as
    zero-effect (no update)"; it gives no rule for a non-finite [current],
    [goal] or [timeConstant], and the model leaves [current] alone there
    too. *)
Definition damp_guarded (current goal timeConstant deltaTime : jsnum) : jsnum :=
  match current, goal, timeConstant, deltaTime with
  | Fin c, Fin g, Fin tau, Fin dt => Fin (damp c g tau dt)
  | _, _, _, _ => current
  end.

(** The value of [current] after [n] frames with the same goal, time
    constant and frame time. *)
Fixpoint run (n : nat) (current goal timeConstant deltaTime : R) : R :=
  match n with
  | O => current
  | S n' => damp (run n' current goal timeConstant deltaTime) goal timeConstant deltaTime
  end.
End Progress.

(* ================================================================== *)
(** * The spec's own notions, and the vocabulary of the statements *)

(** The [lerp] of the spec: linear interpolation between [a] (at [t = 0])
    and [b] (at [t = 1]). *)
Definition lerp (a b t : R) : R := ((1 - t) * a + t * b)%R.

Definition lerp3 (a b : Vector3 R) (t : R) : Vector3 R :=
  mkVector3 (lerp (vx a) (vx b) t) (lerp (vy a) (vy b) t) (lerp (vz a) (vz b) t).

(** The cubic ease-in-out of the spec:
    [t = progress < 0.5 ? 4 progress^3 : 1 - (-2 progress + 2)^3 / 2]. *)
Definition cubic_ease (p : R) : R :=
  (if Rlt_dec p 0.5 then 4 * p ^ 3 else 1 - (-2 * p + 2) ^ 3 / 2)%R.

(** Componentwise sum of two vectors. *)
Definition vadd (a b : Vector3 R) : Vector3 R :=
  mkVector3 (vx a + vx b)%R (vy a + vy b)%R (vz a + vz b)%R.

Definition vzero : Vector3 R := mkVector3 0%R 0%R 0%R.

(** The offsets that the foliage shader adds to the mixed position ("wind"
    and "glitter"), as a function of the elapsed time, the eased progress
    and the vertex's random attribute. *)
Definition foliage_offset (time t rnd : R) : Vector3 R :=
  (let noiseFreq := GLSL.mix 0.5 2.5 t in
   let noiseAmp := GLSL.mix 0.8 0.15 t in
   mkVector3 (sin (time * noiseFreq + rnd * 10.0) * noiseAmp)
             (cos (time * noiseFreq * 0.8 + rnd * 10.0) * noiseAmp
              + sin (time * 5.0 + rnd * 100.0) * 0.05)
             (sin (time * noiseFreq * 1.2 + rnd * 10.0) * noiseAmp))%R.

(** The floating offset of a gift box: present only below the settle
    threshold 0.99, with amplitude [(1 - t) * 2]. *)
Definition gift_offset (item : BottomGifts.GiftItem R) (t time : R) : Vector3 R :=
  (if Rlt_dec t 0.99 then
     mkVector3
       (cos (time * 0.5 * BottomGifts.speed item + BottomGifts.phase item)
        * ((1 - t) * 2.0) * 0.5)
       (sin (time * BottomGifts.speed item + BottomGifts.phase item) * ((1 - t) * 2.0))
       0
   else vzero)%R.

(** The floating offset of an ornament, with amplitude [(1 - t) * 3] for a
    star and [(1 - t) * 1.5] otherwise. *)
Definition ornament_offset (type : Ornaments.OrnamentType) (item : DualPosition R)
                           (t time : R) : Vector3 R :=
  (let floatAmp :=
     (1 - t) * (match type with Ornaments.star => 3.0 | _ => 1.5 end) in
   mkVector3 (cos (time * speed item * 0.5 + phase item) * floatAmp * 0.5)
             (sin (time * speed item + phase item) * floatAmp)
             0)%R.

(** A sequence of draws that is constantly [u]. *)
Definition constant_draws (u : R) : Draws := fun _ => u.










(** ** Vocabulary for the construction of the populations *)

(** The cone of the tree and the ball of the scattered cloud. *)
Definition inside_cone (p : Vector3 R) : Prop :=
  (-7 <= vy p < 7
   /\ Geometry.horizontal_radius p <= 5.5 * (1 - (vy p + 7) / 14))%R.

Definition inside_sphere (p : Vector3 R) : Prop :=
  (Geometry.norm p <= 25)%R.

(** [rand_post m Q]: run on draws from [[0, 1)], the computation [m]
    returns a value that satisfies [Q] and leaves draws from [[0, 1)]. *)
Definition rand_post {A : Type} (m : Rand A) (Q : A -> Prop) : Prop :=
  forall s, in_unit_interval s ->
    Q (fst (m s)) /\ in_unit_interval (snd (m s)).

(** What the construction guarantees of one ornament, by type. *)
Definition ornament_item_ok (type : Ornaments.OrnamentType)
                            (item : DualPosition R) : Prop :=
  (inside_cone (treePos item)
   /\ inside_sphere (scatterPos item)
   /\ 0 <= ex (rotation item) < PI
   /\ 0 <= ey (rotation item) < PI
   /\ ez (rotation item) = 0
   /\ match type with
      | Ornaments.box => 0.45 <= scale item < 0.6
      | Ornaments.sphere => 0.25 <= scale item < 0.6
      | Ornaments.star => 0.15 <= scale item < 0.3
      | Ornaments.diamond => 0.35 <= scale item < 0.5
      end
   /\ match type with
      | Ornaments.box => 0.24 <= speed item < 1.2
      | Ornaments.sphere => 0.3 <= speed item < 1.5
      | Ornaments.star => 0.38 <= speed item < 1.9
      | Ornaments.diamond => 0.32 <= speed item < 1.6
      end
   /\ 0 <= phase item < 2 * PI)%R.

(** What the construction guarantees of one gift box. *)
Definition gift_item_ok (item : BottomGifts.GiftItem R) : Prop :=
  (0.4 <= BottomGifts.scale item < 0.8
   /\ vy (BottomGifts.treePos item) - BottomGifts.scale item / 2 = -7
   /\ 3 <= Geometry.horizontal_radius (BottomGifts.treePos item) < 7
   /\ inside_sphere (BottomGifts.scatterPos item)
   /\ 0 <= BottomGifts.rotationY item < 2 * PI
   /\ (Vector3_length (BottomGifts.tumbleAxis item) = 1
       \/ BottomGifts.tumbleAxis item = vzero)
   /\ 0 <= BottomGifts.phase item < 2 * PI
   /\ 0.5 <= BottomGifts.speed item < 1.5)%R.


(** The same for the arrays of the star particles: base positions in a disk
    of radius 6.5 within one unit above the floor, speeds in [[0.5, 1)],
    scales in [[0.5, 1.3)]. *)
Definition particle_data_ok (count filled : nat)
                            (d : BottomParticles.ParticleData) : Prop :=
  length (BottomParticles.positions d) = (count * 3)%nat
  /\ length (BottomParticles.scatterPositions d) = (count * 3)%nat
  /\ length (BottomParticles.randoms d) = count
  /\ length (BottomParticles.speeds d) = count
  /\ length (BottomParticles.scales d) = count
  /\ forall j, (j < filled)%nat ->
       (Geometry.horizontal_radius (read3 (BottomParticles.positions d) j) < 6.5
        /\ -7 <= vy (read3 (BottomParticles.positions d) j) < -6
        /\ inside_sphere (read3 (BottomParticles.scatterPositions d) j)
        /\ 0 <= read1 (BottomParticles.randoms d) j < 1
        /\ 0.5 <= read1 (BottomParticles.speeds d) j < 1
        /\ 0.5 <= read1 (BottomParticles.scales d) j < 1.3)%R.

(** The sum of a list of numbers. *)
Definition Rsum (l : list R) : R := fold_right Rplus 0%R l.

(* ================================================================== *)
(** * Facts about the samplers *)

Section SamplerFacts.
Local Open Scope R_scope.
Import Geometry.

Lemma Math_cbrt_unit (u : R) : 0 <= u < 1 -> 0 <= Math_cbrt u < 1.
Proof.
  intros [H0 H1]. unfold Math_cbrt.
  destruct (Rlt_dec 0 u) as [Hpos | Hnpos].
  - unfold Rpower. split.
    + left. apply exp_pos.
    + rewrite <- exp_0. apply exp_increasing.
      assert (Hln : ln u < 0) by (rewrite <- ln_1; apply ln_increasing; lra).
      nra.
  - destruct (Rlt_dec u 0); lra.
Qed.

(** [Math_cbrt] is a cube root. *)
Lemma Math_cbrt_cube (x : R) : Math_cbrt x * Math_cbrt x * Math_cbrt x = x.
Proof.
  assert (Hpos : forall y, 0 < y -> Rpower y (/ 3) * Rpower y (/ 3) * Rpower y (/ 3) = y).
  { intros y Hy. rewrite <- !Rpower_plus.
    replace (/ 3 + / 3 + / 3) with 1 by lra. now apply Rpower_1. }
  unfold Math_cbrt.
  destruct (Rlt_dec 0 x) as [H | H]; [ now apply Hpos | ].
  destruct (Rlt_dec x 0) as [H' | H'].
  - specialize (Hpos (- x)). nra.
  - lra.
Qed.

Lemma getScatterPosition_eq (s : Draws) :
  getScatterPosition s =
  (let r := Math_cbrt (s 0%nat) * SCATTER_RADIUS in
   let theta := s 1%nat * PI * 2 in
   let phi := acos (2 * s 2%nat - 1) in
   mkVector3 (r * sin phi * cos theta) (r * sin phi * sin theta) (r * cos phi),
   fun n => s (S (S (S n)))).
Proof. reflexivity. Qed.

Lemma getTreePosition_eq (s : Draws) :
  getTreePosition s =
  (let y := s 0%nat * TREE_HEIGHT - TREE_HEIGHT / 2 in
   let currentRadius := TREE_RADIUS_BASE * (1 - (y + TREE_HEIGHT / 2) / TREE_HEIGHT) in
   let angle := s 1%nat * PI * 2 in
   let r := sqrt (s 2%nat) * currentRadius in
   mkVector3 (r * cos angle) y (r * sin angle),
   fun n => s (S (S (S n)))).
Proof. reflexivity. Qed.

Lemma sin_cos_square (a : R) : sin a * sin a + cos a * cos a = 1.
Proof. exact (sin2_cos2 a). Qed.

Lemma spherical_norm (r phi theta : R) :
  0 <= r ->
  norm (mkVector3 (r * sin phi * cos theta) (r * sin phi * sin theta) (r * cos phi)) = r.
Proof.
  intros Hr. unfold norm; cbn [vx vy vz].
  replace (r * sin phi * cos theta * (r * sin phi * cos theta)
           + r * sin phi * sin theta * (r * sin phi * sin theta)
           + r * cos phi * (r * cos phi))
    with (r * r * (sin phi * sin phi * (sin theta * sin theta + cos theta * cos theta)
                   + cos phi * cos phi)) by ring.
  rewrite sin_cos_square, Rmult_1_r, sin_cos_square, Rmult_1_r.
  now apply sqrt_square.
Qed.

Lemma polar_radius (r angle y : R) :
  0 <= r ->
  horizontal_radius (mkVector3 (r * cos angle) y (r * sin angle)) = r.
Proof.
  intros Hr. unfold horizontal_radius; cbn [vx vy vz].
  replace (r * cos angle * (r * cos angle) + r * sin angle * (r * sin angle))
    with (r * r * (sin angle * sin angle + cos angle * cos angle)) by ring.
  rewrite sin_cos_square, Rmult_1_r.
  now apply sqrt_square.
Qed.

Lemma sqrt_unit (u : R) : 0 <= u < 1 -> 0 <= sqrt u < 1.
Proof.
  intros [H0 H1]. split; [ apply sqrt_pos | ].
  rewrite <- sqrt_1. apply sqrt_lt_1; lra.
Qed.

End SamplerFacts.

Section SamplerTheorems.
Local Open Scope R_scope.
Import Geometry.

(** C9.  Every point returned by the sphere sampler [getScatterPosition]
    lies within Euclidean distance [SCATTER_RADIUS = 25] of the origin,
    whatever the sequence of random draws (each draw being in [[0, 1)]). *)
Theorem getScatterPosition_within_radius (s : Draws) :
  in_unit_interval s ->
  norm (fst (getScatterPosition s)) <= 25.
Proof.
  intros Hs. rewrite getScatterPosition_eq. cbv zeta. cbn [fst].
  destruct (Math_cbrt_unit (Hs 0%nat)) as [Hc0 Hc1].
  unfold SCATTER_RADIUS.
  rewrite spherical_norm; nra.
Qed.

Lemma getScatterPosition_within_radius_witness :
  in_unit_interval (constant_draws (1 / 2))
  /\ norm (fst (getScatterPosition (constant_draws (1 / 2)))) <= 25.
Proof.
  assert (H : in_unit_interval (constant_draws (1 / 2)))
    by (intros n; unfold constant_draws; lra).
  split; [ exact H | exact (getScatterPosition_within_radius H) ].
Defined.

(** C10.  Every point [(x, y, z)] returned by the cone sampler
    [getTreePosition] lies inside the cone: [y] is in [[-7, 7)] and
    [sqrt (x^2 + z^2) <= 5.5 * (1 - (y + 7) / 14)], a bound that is 5.5 at
    the bottom ([y = -7]) and falls linearly to 0 at the top ([y = 7]),
    whatever the sequence of random draws. *)
Theorem getTreePosition_inside_cone (s : Draws) :
  in_unit_interval s ->
  let p := fst (getTreePosition s) in
  (-7 <= vy p < 7)
  /\ horizontal_radius p <= 5.5 * (1 - (vy p + 7) / 14)
  /\ 5.5 * (1 - (-7 + 7) / 14) = 5.5
  /\ 5.5 * (1 - (7 + 7) / 14) = 0.
Proof.
  intros Hs. rewrite getTreePosition_eq. cbv zeta. cbn [fst vy].
  unfold TREE_HEIGHT, TREE_RADIUS_BASE.
  pose proof (Hs 0%nat) as [Hy0 Hy1].
  destruct (sqrt_unit (Hs 2%nat)) as [Hr0 Hr1].
  split; [ lra | ]. split; [ | lra ].
  rewrite polar_radius; nra.
Qed.

Lemma getTreePosition_inside_cone_witness :
  in_unit_interval (constant_draws (1 / 4))
  /\ (let p := fst (getTreePosition (constant_draws (1 / 4))) in
      (-7 <= vy p < 7)
      /\ horizontal_radius p <= 5.5 * (1 - (vy p + 7) / 14)
      /\ 5.5 * (1 - (-7 + 7) / 14) = 5.5
      /\ 5.5 * (1 - (7 + 7) / 14) = 0).
Proof.
  assert (H : in_unit_interval (constant_draws (1 / 4)))
    by (intros n; unfold constant_draws; lra).
  split; [ exact H | exact (getTreePosition_inside_cone H) ].
Defined.

End SamplerTheorems.

(* ================================================================== *)
(** * Facts about interpolation and easing *)

Section InterpolationFacts.
Local Open Scope R_scope.

Lemma vector_eta (v : Vector3 R) : mkVector3 (vx v) (vy v) (vz v) = v.
Proof. now destruct v. Qed.

Lemma vector_ext (a b c a' b' c' : R) :
  a = a' -> b = b' -> c = c' -> mkVector3 a b c = mkVector3 a' b' c'.
Proof. now intros -> -> ->. Qed.

(** The three.js interpolation and the GLSL one are both the linear
    interpolation of the spec. *)
Lemma lerpVectors_lerp3 (v1 v2 : Vector3 R) (alpha : R) :
  lerpVectors v1 v2 alpha = lerp3 v1 v2 alpha.
Proof.
  unfold lerpVectors, lerp3, lerp. real_ops. apply vector_ext; ring.
Qed.

Lemma mix3_lerp3 (x y : Vector3 R) (a : R) : GLSL.mix3 x y a = lerp3 x y a.
Proof.
  unfold GLSL.mix3, GLSL.mix, lerp3, lerp. apply vector_ext; ring.
Qed.

Lemma lerp3_0 (a b : Vector3 R) : lerp3 a b 0 = a.
Proof.
  unfold lerp3, lerp. rewrite <- (vector_eta a) at 4. apply vector_ext; ring.
Qed.

Lemma lerp3_1 (a b : Vector3 R) : lerp3 a b 1 = b.
Proof.
  unfold lerp3, lerp. rewrite <- (vector_eta b) at 4. apply vector_ext; ring.
Qed.

(** [pow] on the base that the easing feeds it, for a progress in
    [[0.5, 1]]. *)
Lemma pow_cube (b : R) : 0 <= b -> GLSL.pow b 3.0 = Some (b ^ 3).
Proof.
  intros Hb. unfold GLSL.pow.
  destruct (Rlt_dec 0 b) as [Hpos | Hnpos].
  - f_equal. replace 3.0 with (INR 3) by (simpl; lra).
    now apply Rpower_pow.
  - destruct (Rlt_dec b 0) as [Hneg | _]; [ lra | ].
    destruct (Rlt_dec 0 3.0) as [_ | H3]; [ | lra ].
    f_equal. replace b with 0 by lra. ring.
Qed.

(** Beyond progress 1 the base is negative and [pow] is undefined. *)
Lemma pow_negative_base (b y : R) : b < 0 -> GLSL.pow b y = None.
Proof.
  intros Hb. unfold GLSL.pow.
  destruct (Rlt_dec 0 b); [ lra | ].
  destruct (Rlt_dec b 0); [ reflexivity | lra ].
Qed.

Lemma Foliage_ease (p : R) :
  0 <= p <= 1 -> Foliage.easeInOutCubic p = Some (cubic_ease p).
Proof.
  intros [H0 H1]. unfold Foliage.easeInOutCubic, cubic_ease.
  destruct (Rlt_dec p 0.5) as [Hlt | Hge].
  - f_equal. lra.
  - rewrite pow_cube by lra. f_equal.
    replace (-2.0 * p + 2.0) with (-2 * p + 2) by lra. lra.
Qed.

Lemma BottomParticles_ease (p : R) :
  0 <= p <= 1 -> BottomParticles.easeInOutCubic p = Some (cubic_ease p).
Proof. exact (Foliage_ease (p := p)). Qed.

Lemma cubic_ease_0 : cubic_ease 0 = 0.
Proof. unfold cubic_ease. destruct (Rlt_dec 0 0.5); lra. Qed.

Lemma cubic_ease_1 : cubic_ease 1 = 1.
Proof. unfold cubic_ease. destruct (Rlt_dec 1 0.5); lra. Qed.

End InterpolationFacts.

(* ================================================================== *)
(** * The shader-driven path *)

Section ShaderTheorems.
Local Open Scope R_scope.

Lemma Foliage_mixed_position_eq (p time : R) (a : Foliage.Attributes) :
  0 <= p <= 1 ->
  Foliage.mixed_position (mkUniforms time p) a =
  Some (cubic_ease p,
        lerp3 (Foliage.aScatterPos a) (Foliage.aTreePos a) (cubic_ease p)).
Proof.
  intros Hp. unfold Foliage.mixed_position. cbn [uProgress].
  now rewrite (Foliage_ease Hp), mix3_lerp3.
Qed.

Lemma Foliage_main_eq (p time : R) (a : Foliage.Attributes) :
  0 <= p <= 1 ->
  Foliage.main (mkUniforms time p) a =
  Some (vadd (lerp3 (Foliage.aScatterPos a) (Foliage.aTreePos a) (cubic_ease p))
             (foliage_offset time (cubic_ease p) (Foliage.aRandom a))).
Proof.
  intros Hp. unfold Foliage.main.
  rewrite (Foliage_mixed_position_eq time a Hp). reflexivity.
Qed.

Lemma BottomParticles_main_eq (p time : R) (b : BottomParticles.Attributes) :
  0 <= p <= 1 ->
  BottomParticles.main (mkUniforms time p) b =
  Some (lerp3 (BottomParticles.aScatterPos b)
              (BottomParticles.animatedBasePos (mkUniforms time p) b)
              (cubic_ease p)).
Proof.
  intros Hp. unfold BottomParticles.main. cbn [uProgress].
  now rewrite (BottomParticles_ease Hp), mix3_lerp3.
Qed.

(** C2.  In the shader-driven particle path, for every progress [p] in
    [[0, 1]], the easing applied before mixing is
    [t = (p < 0.5 ? 4 p^3 : 1 - (-2 p + 2)^3 / 2)], and the position before
    the additive offsets is [lerp(scatteredPosition, assembledPosition, t)]:
    the foliage adds its wind offset to it, the star particles add the
    share [t * rise] of their vertical rise. *)
Theorem shader_path_eases_then_mixes
    (p time : R) (a : Foliage.Attributes) (b : BottomParticles.Attributes) :
  0 <= p <= 1 ->
  let t := cubic_ease p in
  Foliage.easeInOutCubic p = Some t
  /\ BottomParticles.easeInOutCubic p = Some t
  /\ Foliage.mixed_position (mkUniforms time p) a
     = Some (t, lerp3 (Foliage.aScatterPos a) (Foliage.aTreePos a) t)
  /\ Foliage.main (mkUniforms time p) a
     = Some (vadd (lerp3 (Foliage.aScatterPos a) (Foliage.aTreePos a) t)
                  (foliage_offset time t (Foliage.aRandom a)))
  /\ BottomParticles.main (mkUniforms time p) b
     = Some (vadd (lerp3 (BottomParticles.aScatterPos b) (BottomParticles.aBasePos b) t)
                  (mkVector3 0 (t * BottomParticles.rise (mkUniforms time p) b) 0)).
Proof.
  intros Hp t. subst t.
  split; [ exact (Foliage_ease Hp) | ].
  split; [ exact (BottomParticles_ease Hp) | ].
  split; [ exact (Foliage_mixed_position_eq time a Hp) | ].
  split; [ exact (Foliage_main_eq time a Hp) | ].
  rewrite (BottomParticles_main_eq time b Hp). f_equal.
  unfold lerp3, lerp, vadd, BottomParticles.animatedBasePos. cbn [vx vy vz].
  apply vector_ext; ring.
Qed.

Lemma shader_path_eases_then_mixes_witness :
  0 <= 3 / 4 <= 1
  /\ BottomParticles.easeInOutCubic (3 / 4) = Some (cubic_ease (3 / 4))
  /\ cubic_ease (3 / 4) = 15 / 16.
Proof.
  assert (Hp : 0 <= 3 / 4 <= 1) by lra.
  split; [ exact Hp | ]. split.
  - exact (proj1 (proj2 (shader_path_eases_then_mixes
             0 (Foliage.mkAttributes vzero vzero 0)
             (BottomParticles.mkAttributes vzero vzero 0 0 0) Hp))).
  - unfold cubic_ease. destruct (Rlt_dec (3 / 4) 0.5); lra.
Defined.

End ShaderTheorems.

(* ================================================================== *)
(** * The instanced rigid path *)

Section RigidFacts.
Local Open Scope R_scope.

Lemma vadd_zero (v : Vector3 R) : vadd v vzero = v.
Proof.
  unfold vadd, vzero. cbn [vx vy vz].
  rewrite <- (vector_eta v) at 4. apply vector_ext; ring.
Qed.

Lemma gift_position (item : BottomGifts.GiftItem R) (t time : R) :
  t_position (BottomGifts.item_transform item t time)
  = vadd (lerp3 (BottomGifts.scatterPos item) (BottomGifts.treePos item) t)
         (gift_offset item t time).
Proof.
  unfold BottomGifts.item_transform, gift_offset. real_ops. unfold Rltb.
  rewrite lerpVectors_lerp3.
  destruct (Rlt_dec t 0.99); cbn [t_position].
  - unfold add_x, add_y, vadd. real_ops. cbn [vx vy vz].
    apply vector_ext; ring.
  - now rewrite vadd_zero.
Qed.

Lemma gift_rotation_settled (item : BottomGifts.GiftItem R) (t time : R) :
  0.99 <= t ->
  t_rotation (BottomGifts.item_transform item t time)
  = mkEuler 0 (BottomGifts.rotationY item) 0.
Proof.
  intros Ht. unfold BottomGifts.item_transform. real_ops. unfold Rltb.
  destruct (Rlt_dec t 0.99); [ lra | reflexivity ].
Qed.

Lemma gift_rotation_tumbling (item : BottomGifts.GiftItem R) (t time : R) :
  t < 0.99 ->
  t_rotation (BottomGifts.item_transform item t time)
  = mkEuler (time * (BottomGifts.speed item * 0.25) * (1 - t))
            (time * (BottomGifts.speed item * 0.25) * (1 - t) + BottomGifts.rotationY item)
            (time * (BottomGifts.speed item * 0.25) * (1 - t)).
Proof.
  intros Ht. unfold BottomGifts.item_transform. real_ops. unfold Rltb.
  destruct (Rlt_dec t 0.99); [ reflexivity | lra ].
Qed.

Lemma gift_scale (item : BottomGifts.GiftItem R) (t time : R) :
  t_scale (BottomGifts.item_transform item t time)
  = setScalar (BottomGifts.scale item
               * (0.95 + 0.05 * sin (time + BottomGifts.phase item))).
Proof.
  unfold BottomGifts.item_transform. real_ops. unfold Rltb.
  destruct (Rlt_dec t 0.99); reflexivity.
Qed.

Lemma ornament_position (type : Ornaments.OrnamentType) (item : DualPosition R)
                        (t time : R) :
  t_position (Ornaments.item_transform type item t time)
  = vadd (lerp3 (scatterPos item) (treePos item) t)
         (ornament_offset type item t time).
Proof.
  unfold Ornaments.item_transform, ornament_offset. cbn [t_position].
  rewrite lerpVectors_lerp3.
  unfold add_x, add_y, vadd. real_ops. cbn [vx vy vz].
  destruct type; apply vector_ext; ring.
Qed.

Lemma ornament_rotation (type : Ornaments.OrnamentType) (item : DualPosition R)
                        (t time : R) :
  t_rotation (Ornaments.item_transform type item t time)
  = mkEuler (ex (rotation item) + time * 0.2 * (1 - t) * speed item)
            (ey (rotation item)
             + time * (match type with
                       | Ornaments.diamond | Ornaments.star => 0.5
                       | _ => 0.1
                       end) * speed item)
            (ez (rotation item) + time * 0.1 * (1 - t)).
Proof. destruct type; reflexivity. Qed.

Lemma ornament_scale (type : Ornaments.OrnamentType) (item : DualPosition R)
                     (t time : R) :
  t_scale (Ornaments.item_transform type item t time)
  = setScalar (scale item * (0.85 + 0.15 * sin (time * 2 + phase item))).
Proof. reflexivity. Qed.

Lemma ornament_offset_at_1 (type : Ornaments.OrnamentType) (item : DualPosition R)
                           (time : R) :
  ornament_offset type item 1 time = vzero.
Proof.
  unfold ornament_offset, vzero. cbv zeta. apply vector_ext; ring.
Qed.

Lemma gift_offset_at_1 (item : BottomGifts.GiftItem R) (time : R) :
  gift_offset item 1 time = vzero.
Proof.
  unfold gift_offset. destruct (Rlt_dec 1 0.99); [ lra | reflexivity ].
Qed.

(** The buffers written by one frame hold one transform per item, in the
    order of [data], each computed from the progress that the frame stored. *)
Lemma BottomGifts_useFrame_buffers
    (damp : R -> R -> R -> R -> R) (data : list (BottomGifts.GiftItem R))
    (st : BottomGifts.State R) (state : TreeState) (time delta : R) :
  let st' := BottomGifts.useFrame damp true data st state time delta in
  BottomGifts.targetProgress st'
  = damp (BottomGifts.targetProgress st) (goal_of state) 1.0 delta
  /\ BottomGifts.meshMatrices st'
     = map (fun item =>
              BottomGifts.item_transform item (BottomGifts.targetProgress st') time)
           data
  /\ BottomGifts.ribbon1Matrices st' = BottomGifts.meshMatrices st'
  /\ BottomGifts.ribbon2Matrices st' = BottomGifts.meshMatrices st'.
Proof. cbv zeta. unfold BottomGifts.useFrame. cbn. auto. Qed.

Lemma Ornaments_useFrame_buffers
    (damp : R -> R -> R -> R -> R) (type : Ornaments.OrnamentType)
    (data : list (DualPosition R))
    (st : Ornaments.State R) (state : TreeState) (time delta : R) :
  let st' := Ornaments.useFrame damp true type data st state time delta in
  Ornaments.targetProgress st'
  = damp (Ornaments.targetProgress st) (goal_of state) 1.2 delta
  /\ Ornaments.meshMatrices st'
     = map (fun item =>
              Ornaments.item_transform type item (Ornaments.targetProgress st') time)
           data
  /\ Forall (fun layer => layer = Ornaments.meshMatrices st')
            (Ornaments.extraMatrices st').
Proof.
  cbv zeta. unfold Ornaments.useFrame. cbn. repeat split.
  apply Forall_forall. intros layer Hin.
  apply in_map_iff in Hin. now destruct Hin as [_ [<- _]].
Qed.

End RigidFacts.

Section BoundaryTheorems.
Local Open Scope R_scope.

(** C1, as stated, fails: at progress exactly 0 the foliage shader does
    not render an entity at its scattered position.  With every attribute
    and the elapsed time equal to 0 the entity scattered at the origin is
    rendered at [(0, 0.8, 0)]: the wind offset has amplitude 0.8 there. *)
Lemma foliage_at_progress_0_is_offset :
  let a := Foliage.mkAttributes vzero vzero 0 in
  Foliage.main (mkUniforms 0 0) a = Some (mkVector3 0 0.8 0)
  /\ Foliage.main (mkUniforms 0 0) a <> Some (Foliage.aScatterPos a).
Proof.
  cbv zeta.
  assert (Hp : 0 <= 0 <= 1) by lra.
  assert (Hmain : Foliage.main (mkUniforms 0 0) (Foliage.mkAttributes vzero vzero 0)
                  = Some (mkVector3 0 0.8 0)).
  { rewrite (Foliage_main_eq 0 (Foliage.mkAttributes vzero vzero 0) Hp).
    rewrite cubic_ease_0, lerp3_0. cbn [Foliage.aScatterPos Foliage.aRandom].
    unfold foliage_offset, vadd, vzero, GLSL.mix. cbv zeta. cbn [vx vy vz].
    f_equal.
    replace (0 * (0.5 * (1 - 0) + 2.5 * 0) + 0 * 10.0) with 0 by ring.
    replace (0 * (0.5 * (1 - 0) + 2.5 * 0) * 0.8 + 0 * 10.0) with 0 by ring.
    replace (0 * (0.5 * (1 - 0) + 2.5 * 0) * 1.2 + 0 * 10.0) with 0 by ring.
    replace (0 * 5.0 + 0 * 100.0) with 0 by ring.
    rewrite sin_0, cos_0. apply vector_ext; lra. }
  split; [ exact Hmain | ].
  rewrite Hmain. cbn [Foliage.aScatterPos]. unfold vzero.
  intros Heq. injection Heq as Hy. lra.
Qed.

(** C1, amended.  At progress exactly 0 the interpolated position, before
    the additive procedural offsets, equals the entity's scattered position,
    and at progress exactly 1 it equals its assembled position, in the
    shader-driven path and in the instanced rigid path alike.  The rendered
    position is that position plus the offsets: the foliage adds its wind
    offset at both ends; the star particles are rendered exactly at the
    scattered position at progress 0 and at the risen base position at
    progress 1; gift boxes and ornaments carry their floating offset at
    progress 0 and are rendered exactly at the assembled position at
    progress 1. *)
Theorem boundary_positions (time : R) :
  (forall a : Foliage.Attributes,
     Foliage.mixed_position (mkUniforms time 0) a = Some (0, Foliage.aScatterPos a)
     /\ Foliage.mixed_position (mkUniforms time 1) a = Some (1, Foliage.aTreePos a)
     /\ Foliage.main (mkUniforms time 0) a
        = Some (vadd (Foliage.aScatterPos a) (foliage_offset time 0 (Foliage.aRandom a)))
     /\ Foliage.main (mkUniforms time 1) a
        = Some (vadd (Foliage.aTreePos a) (foliage_offset time 1 (Foliage.aRandom a))))
  /\ (forall b : BottomParticles.Attributes,
        BottomParticles.main (mkUniforms time 0) b
        = Some (BottomParticles.aScatterPos b)
        /\ BottomParticles.main (mkUniforms time 1) b
           = Some (BottomParticles.animatedBasePos (mkUniforms time 1) b))
  /\ (forall item : BottomGifts.GiftItem R,
        lerpVectors (BottomGifts.scatterPos item) (BottomGifts.treePos item) 0
        = BottomGifts.scatterPos item
        /\ t_position (BottomGifts.item_transform item 0 time)
           = vadd (BottomGifts.scatterPos item) (gift_offset item 0 time)
        /\ t_position (BottomGifts.item_transform item 1 time)
           = BottomGifts.treePos item)
  /\ (forall (type : Ornaments.OrnamentType) (item : DualPosition R),
        lerpVectors (scatterPos item) (treePos item) 0 = scatterPos item
        /\ t_position (Ornaments.item_transform type item 0 time)
           = vadd (scatterPos item) (ornament_offset type item 0 time)
        /\ t_position (Ornaments.item_transform type item 1 time)
           = treePos item).
Proof.
  assert (H0 : 0 <= 0 <= 1) by lra.
  assert (H1 : 0 <= 1 <= 1) by lra.
  repeat split.
  - rewrite (Foliage_mixed_position_eq time a H0). now rewrite cubic_ease_0, lerp3_0.
  - rewrite (Foliage_mixed_position_eq time a H1). now rewrite cubic_ease_1, lerp3_1.
  - rewrite (Foliage_main_eq time a H0). now rewrite cubic_ease_0, lerp3_0.
  - rewrite (Foliage_main_eq time a H1). now rewrite cubic_ease_1, lerp3_1.
  - rewrite (BottomParticles_main_eq time b H0). now rewrite cubic_ease_0, lerp3_0.
  - rewrite (BottomParticles_main_eq time b H1). now rewrite cubic_ease_1, lerp3_1.
  - now rewrite lerpVectors_lerp3, lerp3_0.
  - now rewrite gift_position, lerp3_0.
  - now rewrite gift_position, lerp3_1, gift_offset_at_1, vadd_zero.
  - now rewrite lerpVectors_lerp3, lerp3_0.
  - now rewrite ornament_position, lerp3_0.
  - now rewrite ornament_position, lerp3_1, ornament_offset_at_1, vadd_zero.
Qed.

(** C3.  In the instanced rigid path, every frame writes, for every
    entity, the position [lerp(scatteredPosition, assembledPosition,
    current)] plus that entity's floating offset, where [current] is the
    raw damped scalar that the same frame stored: the interpolation is
    linear in [current], with no easing curve.  The shader path differs: at
    progress 1/4 it interpolates with 1/16. *)
Theorem rigid_path_lerps_on_raw_progress
    (damp : R -> R -> R -> R -> R)
    (gifts : list (BottomGifts.GiftItem R)) (gst : BottomGifts.State R)
    (type : Ornaments.OrnamentType) (ornaments : list (DualPosition R))
    (ost : Ornaments.State R)
    (state : TreeState) (time delta : R) :
  let g' := BottomGifts.useFrame damp true gifts gst state time delta in
  let o' := Ornaments.useFrame damp true type ornaments ost state time delta in
  let gc := BottomGifts.targetProgress g' in
  let oc := Ornaments.targetProgress o' in
  gc = damp (BottomGifts.targetProgress gst) (goal_of state) 1.0 delta
  /\ map (@t_position R) (BottomGifts.meshMatrices g')
     = map (fun item =>
              vadd (lerp3 (BottomGifts.scatterPos item) (BottomGifts.treePos item) gc)
                   (gift_offset item gc time))
           gifts
  /\ oc = damp (Ornaments.targetProgress ost) (goal_of state) 1.2 delta
  /\ map (@t_position R) (Ornaments.meshMatrices o')
     = map (fun item =>
              vadd (lerp3 (scatterPos item) (treePos item) oc)
                   (ornament_offset type item oc time))
           ornaments
  /\ Foliage.easeInOutCubic (1 / 4) = Some (1 / 16)
  /\ BottomParticles.easeInOutCubic (1 / 4) = Some (1 / 16).
Proof.
  cbv zeta.
  destruct (BottomGifts_useFrame_buffers damp gifts gst state time delta)
    as (Hg & Hgm & _).
  destruct (Ornaments_useFrame_buffers damp type ornaments ost state time delta)
    as (Ho & Hom & _).
  cbv zeta in Hg, Hgm, Ho, Hom.
  split; [ exact Hg | ]. split.
  { rewrite Hgm, map_map. apply map_ext. intros item. apply gift_position. }
  split; [ exact Ho | ]. split.
  { rewrite Hom, map_map. apply map_ext. intros item. apply ornament_position. }
  assert (He : Foliage.easeInOutCubic (1 / 4) = Some (1 / 16)).
  { unfold Foliage.easeInOutCubic.
    destruct (Rlt_dec (1 / 4) 0.5); [ f_equal; lra | lra ]. }
  split; exact He.
Qed.

End BoundaryTheorems.

Section SettleTheorems.
Local Open Scope R_scope.

(** C5, as stated, fails for the ornaments: there is no settle threshold in
    [OrnamentGroup].  An ornament at rest orientation [(1, 2, 0)] with
    speed 1, at progress 1 and elapsed time 1, is written with rotation
    [(1, 2.1, 0)], not [(0, 2, 0)]. *)
Lemma ornament_rotation_not_snapped :
  let item := mkDualPosition vzero vzero (mkEuler 1 2 0) 1 1 0 in
  0.99 <= 1
  /\ t_rotation (Ornaments.item_transform Ornaments.sphere item 1 1)
     = mkEuler 1 2.1 0
  /\ t_rotation (Ornaments.item_transform Ornaments.sphere item 1 1)
     <> mkEuler 0 (ey (rotation item)) 0.
Proof.
  cbv zeta. split; [ lra | ].
  rewrite ornament_rotation. cbn [rotation ex ey ez speed].
  split.
  - f_equal; lra.
  - intros Heq. injection Heq as Hx _ _. lra.
Qed.

(** C5, amended.  For every gift box, whenever the damped progress is at
    least 0.99 the rotation written for that frame is exactly
    [(0, rotationY, 0)].  Ornaments have no settle threshold: for every
    progress, below 0.99 as well as above, their rotation is the rest
    orientation plus a tumble about x and z that is proportional to
    [1 - current] and a spin about y that does not depend on [current]; at
    progress exactly 1 this is
    [(rest.x, rest.y + time * spinSpeed * speed, rest.z)]. *)
Theorem settled_rotation (t time : R) :
  (0.99 <= t ->
   forall item : BottomGifts.GiftItem R,
     t_rotation (BottomGifts.item_transform item t time)
     = mkEuler 0 (BottomGifts.rotationY item) 0)
  /\ (forall (type : Ornaments.OrnamentType) (item : DualPosition R),
        let spinSpeed :=
          match type with
          | Ornaments.diamond | Ornaments.star => 0.5
          | _ => 0.1
          end in
        t_rotation (Ornaments.item_transform type item t time)
        = mkEuler (ex (rotation item) + time * 0.2 * (1 - t) * speed item)
                  (ey (rotation item) + time * spinSpeed * speed item)
                  (ez (rotation item) + time * 0.1 * (1 - t))
        /\ t_rotation (Ornaments.item_transform type item 1 time)
           = mkEuler (ex (rotation item))
                     (ey (rotation item) + time * spinSpeed * speed item)
                     (ez (rotation item))).
Proof.
  split.
  - intros Ht item. now apply gift_rotation_settled.
  - intros type item. cbv zeta. rewrite !ornament_rotation. split.
    + reflexivity.
    + f_equal; ring.
Qed.

Lemma settled_rotation_witness :
  0.99 <= 1
  /\ t_rotation (BottomGifts.item_transform
                   (BottomGifts.mkGiftItem vzero vzero 2 vzero 1 0 1) 1 3)
     = mkEuler 0 2 0
  /\ t_rotation (Ornaments.item_transform Ornaments.sphere
                   (mkDualPosition vzero vzero (mkEuler 1 2 0) 1 1 0) (1 / 2) 3)
     = mkEuler (1 + 3 * 0.2 * (1 - 1 / 2) * 1) (2 + 3 * 0.1 * 1) (0 + 3 * 0.1 * (1 - 1 / 2)).
Proof.
  assert (Ht : 0.99 <= 1) by lra.
  split; [ exact Ht | ]. split.
  - exact (proj1 (settled_rotation 1 3) Ht
                 (BottomGifts.mkGiftItem vzero vzero 2 vzero 1 0 1)).
  - exact (proj1 (proj2 (settled_rotation (1 / 2) 3) Ornaments.sphere
                   (mkDualPosition vzero vzero (mkEuler 1 2 0) 1 1 0))).
Defined.

(** C7, as stated, fails for the ornaments: an ornament of base scale 1 and
    phase 0 is written, at elapsed time 0, with scale 0.85 on each axis,
    while [1 * (0.95 + 0.05 * sin (0 + 0))] is 0.95. *)
Lemma ornament_scale_not_095 :
  let item := mkDualPosition vzero vzero (mkEuler 0 0 0) 1 1 0 in
  t_scale (Ornaments.item_transform Ornaments.box item 0 0) = setScalar 0.85
  /\ t_scale (Ornaments.item_transform Ornaments.box item 0 0)
     <> setScalar (scale item * (0.95 + 0.05 * sin (0 + phase item))).
Proof.
  cbv zeta. rewrite ornament_scale. cbn [scale phase]. unfold setScalar.
  replace (0 * 2 + 0) with 0 by ring. replace (0 + 0) with 0 by ring.
  rewrite sin_0. split.
  - apply vector_ext; lra.
  - intros Heq. injection Heq as Hx _ _. lra.
Qed.

(** C7, amended.  At every frame and for every value of [current], the
    scale written for a gift box is its base scale times
    [0.95 + 0.05 * sin (time + phase)], and the scale written for an
    ornament is its base scale times [0.85 + 0.15 * sin (2 * time + phase)],
    the same on the three axes. *)
Theorem breathing_scale (t time : R) :
  (forall item : BottomGifts.GiftItem R,
     t_scale (BottomGifts.item_transform item t time)
     = setScalar (BottomGifts.scale item
                  * (0.95 + 0.05 * sin (time + BottomGifts.phase item))))
  /\ (forall (type : Ornaments.OrnamentType) (item : DualPosition R),
        t_scale (Ornaments.item_transform type item t time)
        = setScalar (scale item * (0.85 + 0.15 * sin (2 * time + phase item)))).
Proof.
  split.
  - intros item. apply gift_scale.
  - intros type item. rewrite ornament_scale.
    now replace (time * 2) with (2 * time) by ring.
Qed.

End SettleTheorems.

(* ================================================================== *)
(** * Construction of an ornament population *)

Section ConstructionTheorems.

Lemma push_items_length (type : Ornaments.OrnamentType) (n : nat) :
  forall (items : list (DualPosition R)) (s : Draws),
    length (fst (Ornaments.push_items type n items s)) = (length items + n)%nat.
Proof.
  induction n as [| n IH]; intros items s.
  - cbn. lia.
  - cbn [Ornaments.push_items]. unfold bind at 1.
    destruct (Ornaments.make_item type s) as [item s'].
    rewrite IH, length_app. cbn. lia.
Qed.

(** A population holds exactly [count] entities when [count] is positive,
    and none otherwise. *)
Lemma data_length (type : Ornaments.OrnamentType) (count : Z) (s : Draws) :
  length (fst (Ornaments.data type count s)) = Z.to_nat count.
Proof. unfold Ornaments.data. now rewrite push_items_length. Qed.

(** C8, as stated, fails: constructing the data of an ornament population
    with count 0, or with the negative count -3, raises nothing and returns
    the empty population. *)
Lemma data_count_0_is_silently_empty :
  fst (Ornaments.data Ornaments.box 0 (constant_draws 0)) = []
  /\ fst (Ornaments.data Ornaments.sphere (-3) (constant_draws 0)) = [].
Proof. split; reflexivity. Qed.

(** C8, amended.  Constructing the data of an ornament population with an
    entity count less than or equal to 0 raises no error: the construction
    loop does not run, no random number is drawn, and the result is the
    empty population. *)
Theorem data_nonpositive_count_is_empty
    (type : Ornaments.OrnamentType) (count : Z) (s : Draws) :
  (count <= 0)%Z ->
  Ornaments.data type count s = ([], s)
  /\ length (fst (Ornaments.data type count s)) = 0%nat.
Proof.
  intros Hc. unfold Ornaments.data.
  replace (Z.to_nat count) with 0%nat by lia.
  split; reflexivity.
Qed.

Lemma data_nonpositive_count_is_empty_witness :
  (-1 <= 0)%Z
  /\ Ornaments.data Ornaments.star (-1) (constant_draws 0) = ([], constant_draws 0).
Proof.
  assert (Hc : (-1 <= 0)%Z) by lia.
  split; [ exact Hc | ].
  exact (proj1 (data_nonpositive_count_is_empty Ornaments.star (constant_draws 0) Hc)).
Defined.

End ConstructionTheorems.

(* ================================================================== *)
(** * The progress controller *)

Section ProgressTheorems.
Local Open Scope R_scope.
Import Progress.

(** The decay factor of one frame lies strictly between 0 and 1. *)
Lemma decay_factor_unit (tau dt : R) :
  0 < tau -> 0 < dt -> 0 < exp (- (dt / tau)) < 1.
Proof.
  intros Htau Hdt. split; [ apply exp_pos | ].
  assert (Hq : 0 < dt / tau) by (now apply Rdiv_lt_0_compat).
  assert (Hlt : exp (- (dt / tau)) < exp 0) by (apply exp_increasing; lra).
  now rewrite exp_0 in Hlt.
Qed.

Lemma damp_distance (c g tau dt : R) :
  damp c g tau dt - g = (c - g) * exp (- (dt / tau)).
Proof. unfold damp. ring. Qed.

(** After [n] frames the distance to the goal has decayed [n] times. *)
Lemma run_distance (n : nat) (c g tau dt : R) :
  run n c g tau dt - g = (c - g) * exp (- (dt / tau)) ^ n.
Proof.
  induction n as [| n IH]; cbn [run].
  - cbn. ring.
  - rewrite damp_distance, IH. cbn. ring.
Qed.

Lemma damp_zero_delta (c g tau : R) : damp c g tau 0 = c.
Proof.
  unfold damp. replace (- (0 / tau)) with 0 by (unfold Rdiv; ring).
  rewrite exp_0. ring.
Qed.

(** One step from below the goal moves up and stays below it. *)
Lemma damp_step_below (c g tau dt : R) :
  0 < tau -> 0 < dt -> c <= g -> c <= damp c g tau dt <= g.
Proof.
  intros Htau Hdt Hc.
  destruct (decay_factor_unit Htau Hdt) as [Hk0 Hk1].
  pose proof (damp_distance c g tau dt) as Hd.
  split; nra.
Qed.

(** One step from above the goal moves down and stays above it. *)
Lemma damp_step_above (c g tau dt : R) :
  0 < tau -> 0 < dt -> g <= c -> g <= damp c g tau dt <= c.
Proof.
  intros Htau Hdt Hc.
  destruct (decay_factor_unit Htau Hdt) as [Hk0 Hk1].
  pose proof (damp_distance c g tau dt) as Hd.
  split; nra.
Qed.

Lemma run_below (n : nat) (c g tau dt : R) :
  0 < tau -> 0 < dt -> c <= g -> c <= run n c g tau dt <= g.
Proof.
  intros Htau Hdt Hc. induction n as [| n IH]; cbn [run]; [ lra | ].
  destruct (damp_step_below (c := run n c g tau dt) Htau Hdt (proj2 IH)). lra.
Qed.

Lemma run_above (n : nat) (c g tau dt : R) :
  0 < tau -> 0 < dt -> g <= c -> g <= run n c g tau dt <= c.
Proof.
  intros Htau Hdt Hc. induction n as [| n IH]; cbn [run]; [ lra | ].
  destruct (damp_step_above (c := run n c g tau dt) Htau Hdt (proj1 IH)). lra.
Qed.

Lemma run_converges (c g tau dt : R) :
  0 < tau -> 0 < dt ->
  forall eps, 0 < eps ->
    exists N : nat, forall n, (N <= n)%nat -> Rabs (run n c g tau dt - g) < eps.
Proof.
  intros Htau Hdt eps Heps.
  destruct (decay_factor_unit Htau Hdt) as [Hk0 Hk1].
  set (k := exp (- (dt / tau))) in *.
  set (M := Rabs (c - g) + 1).
  assert (HM : 0 < M) by (unfold M; pose proof (Rabs_pos (c - g)); lra).
  assert (Hk : Rabs k < 1) by (rewrite Rabs_pos_eq; lra).
  assert (Hq : 0 < eps / M) by (now apply Rdiv_lt_0_compat).
  destruct (pow_lt_1_zero k Hk (eps / M) Hq) as [N HN].
  exists N. intros n Hn.
  rewrite run_distance. fold k. rewrite Rabs_mult.
  specialize (HN n Hn).
  pose proof (Rabs_pos (k ^ n)) as Hp.
  pose proof (Rabs_pos (c - g)) as Hc.
  assert (Hle : Rabs (c - g) * Rabs (k ^ n) <= M * Rabs (k ^ n)) by (unfold M; nra).
  assert (Hlt : M * Rabs (k ^ n) < M * (eps / M))
    by (now apply Rmult_lt_compat_l).
  replace (M * (eps / M)) with eps in Hlt by (field; lra).
  lra.
Qed.

(** C4.  With the smoothing step of the spec: for every initial [current]
    in [[0, 1]], every fixed goal in [{0, 1}], every fixed (positive) time
    constant and every fixed frame time [deltaTime > 0], repeated updates
    produce a monotone sequence of values that stays in [[0, 1]], never
    passes the goal, gets no farther from it at any step and comes within
    every [eps > 0] of it after finitely many steps; and an update with
    [deltaTime = 0] leaves [current] unchanged. *)
Theorem damp_monotone_without_overshoot (c0 g tau dt : R) :
  0 <= c0 <= 1 -> g = 0 \/ g = 1 -> 0 < tau -> 0 < dt ->
  let cur := fun n : nat => run n c0 g tau dt in
  (g = 1 -> forall n, cur n <= cur (S n) <= 1)
  /\ (g = 0 -> forall n, 0 <= cur (S n) <= cur n)
  /\ (forall n, 0 <= cur n <= 1)
  /\ (forall n, Rabs (cur (S n) - g) <= Rabs (cur n - g))
  /\ (forall eps, 0 < eps ->
        exists N : nat, forall n, (N <= n)%nat -> Rabs (cur n - g) < eps)
  /\ damp c0 g tau 0 = c0.
Proof.
  intros Hc Hg Htau Hdt. cbv zeta.
  destruct (decay_factor_unit Htau Hdt) as [Hk0 Hk1].
  split; [ | split; [ | split; [ | split; [ | split ] ] ] ].
  - intros -> n. cbn [run].
    assert (Hb : c0 <= run n c0 1 tau dt <= 1) by (apply run_below; lra).
    destruct (damp_step_below (c := run n c0 1 tau dt) Htau Hdt (proj2 Hb)). lra.
  - intros -> n. cbn [run].
    assert (Ha : 0 <= run n c0 0 tau dt <= c0) by (apply run_above; lra).
    destruct (damp_step_above (c := run n c0 0 tau dt) Htau Hdt (proj1 Ha)). lra.
  - intros n. destruct Hg as [-> | ->].
    + assert (Ha : 0 <= run n c0 0 tau dt <= c0) by (apply run_above; lra). lra.
    + assert (Hb : c0 <= run n c0 1 tau dt <= 1) by (apply run_below; lra). lra.
  - intros n. cbn [run]. rewrite damp_distance, Rabs_mult.
    rewrite (Rabs_pos_eq (exp (- (dt / tau)))) by lra.
    pose proof (Rabs_pos (run n c0 g tau dt - g)). nra.
  - now apply run_converges.
  - apply damp_zero_delta.
Qed.

Lemma damp_monotone_without_overshoot_witness :
  0 <= 0 <= 1 /\ (1 = 0 \/ 1 = 1) /\ 0 < 1.2 /\ 0 < / 60
  /\ (forall n, 0 <= run n 0 1 1.2 (/ 60) <= 1)
  /\ damp 0 1 1.2 0 = 0.
Proof.
  assert (Hc : 0 <= 0 <= 1) by lra.
  assert (Hg : 1 = 0 \/ 1 = 1) by (right; reflexivity).
  assert (Htau : 0 < 1.2) by lra.
  assert (Hdt : 0 < / 60) by lra.
  pose (T := damp_monotone_without_overshoot Hc Hg Htau Hdt).
  repeat (split; [ assumption | ]).
  split.
  - exact (proj1 (proj2 (proj2 T))).
  - exact (proj2 (proj2 (proj2 (proj2 (proj2 T))))).
Defined.

End ProgressTheorems.

(* ================================================================== *)
(** * A frame time that is not finite *)

Section NonFiniteDelta.









Lemma damp_guarded_nonfinite_delta (c g tau delta : jsnum) :
  is_finite delta = false -> Progress.damp_guarded c g tau delta = c.
Proof. destruct c, g, tau, delta; cbn; congruence. Qed.









End NonFiniteDelta.

(* ================================================================== *)
(** * Reasoning about computations that draw random numbers *)

Section RandomFacts.
Local Open Scope R_scope.

Lemma rand_post_ret (A : Type) (a : A) (Q : A -> Prop) :
  Q a -> rand_post (ret a) Q.
Proof. intros Ha s Hs. now split. Qed.

Lemma rand_post_bind (A B : Type) (m : Rand A) (k : A -> Rand B)
      (P : A -> Prop) (Q : B -> Prop) :
  rand_post m P ->
  (forall a, P a -> rand_post (k a) Q) ->
  rand_post (bind m k) Q.
Proof.
  intros Hm Hk s Hs. unfold bind.
  destruct (Hm s Hs) as [Ha Hs']. destruct (m s) as [a s'].
  exact (Hk a Ha s' Hs').
Qed.

Lemma rand_post_weaken (A : Type) (m : Rand A) (P Q : A -> Prop) :
  rand_post m P -> (forall a, P a -> Q a) -> rand_post m Q.
Proof.
  intros Hm HPQ s Hs. destruct (Hm s Hs) as [Ha Hs']. split; auto.
Qed.

Lemma rand_post_Math_random :
  rand_post Math_random (fun u => 0 <= u < 1).
Proof.
  intros s Hs. split; [ exact (Hs 0%nat) | intros n; exact (Hs (S n)) ].
Qed.

Lemma unit_interval_tail3 (s : Draws) :
  in_unit_interval s -> in_unit_interval (fun n => s (S (S (S n)))).
Proof. intros Hs n. exact (Hs (S (S (S n)))). Qed.

Lemma rand_post_getTreePosition :
  rand_post Geometry.getTreePosition inside_cone.
Proof.
  intros s Hs. rewrite getTreePosition_eq. cbv zeta. cbn [fst snd].
  split; [ | now apply unit_interval_tail3 ].
  unfold inside_cone. cbn [vy].
  unfold Geometry.TREE_HEIGHT, Geometry.TREE_RADIUS_BASE.
  pose proof (Hs 0%nat) as [Hy0 Hy1].
  destruct (sqrt_unit (Hs 2%nat)) as [Hr0 Hr1].
  split; [ lra | ].
  rewrite polar_radius; nra.
Qed.

Lemma rand_post_getScatterPosition :
  rand_post Geometry.getScatterPosition inside_sphere.
Proof.
  intros s Hs. rewrite getScatterPosition_eq. cbv zeta. cbn [fst snd].
  split; [ | now apply unit_interval_tail3 ].
  unfold inside_sphere.
  destruct (Math_cbrt_unit (Hs 0%nat)) as [Hc0 Hc1].
  unfold Geometry.SCATTER_RADIUS.
  rewrite spherical_norm; nra.
Qed.

(** A loop keeps an invariant that each of its turns keeps. *)
Lemma for_loop_invariant (St : Type) (body : nat -> St -> Rand St)
      (Inv : nat -> St -> Prop) (count : nat) :
  (forall i st, (i < count)%nat -> Inv i st -> rand_post (body i st) (Inv (S i))) ->
  forall turns i st,
    (i + turns = count)%nat -> Inv i st ->
    rand_post (for_loop turns i body st) (Inv count).
Proof.
  intros Hbody. induction turns as [| turns IH]; intros i st Hi Hinv.
  - cbn [for_loop]. apply rand_post_ret.
    now replace count with i by lia.
  - cbn [for_loop].
    apply rand_post_bind with (P := Inv (S i)).
    + apply Hbody; [ lia | exact Hinv ].
    + intros st' Hst'. apply IH; [ lia | exact Hst' ].
Qed.

End RandomFacts.

(* ================================================================== *)
(** * The items of an ornament group *)

Section OrnamentData.
Local Open Scope R_scope.

Lemma rand_post_scaleBase_weight (type : Ornaments.OrnamentType) :
  rand_post (Ornaments.scaleBase_weight type)
    (fun sw =>
       snd sw = match type with
                | Ornaments.box => 0.2
                | Ornaments.sphere => 0.5
                | Ornaments.star => 0.9
                | Ornaments.diamond => 0.6
                end
       /\ match type with
          | Ornaments.box => fst sw = 0.45
          | Ornaments.sphere => fst sw = 0.45 \/ fst sw = 0.25
          | Ornaments.star => fst sw = 0.15
          | Ornaments.diamond => fst sw = 0.35
          end).
Proof.
  destruct type; cbn [Ornaments.scaleBase_weight];
    try (apply rand_post_ret; cbn; split; reflexivity).
  apply rand_post_bind with (P := fun u => 0 <= u < 1);
    [ apply rand_post_Math_random | ].
  intros u Hu. apply rand_post_ret. cbn [fst snd]. split; [ reflexivity | ].
  destruct (Rlt_dec 0.8 u); [ left | right ]; reflexivity.
Qed.

Lemma rand_post_make_item (type : Ornaments.OrnamentType) :
  rand_post (Ornaments.make_item type) (ornament_item_ok type).
Proof.
  unfold Ornaments.make_item.
  eapply rand_post_bind; [ apply rand_post_scaleBase_weight | ].
  intros [scaleBase weight] [Hw Hb]. cbn [fst snd] in Hw, Hb.
  eapply rand_post_bind; [ apply rand_post_Math_random | ]. intros u_var Hvar.
  eapply rand_post_bind; [ apply rand_post_getTreePosition | ]. intros tree Htree.
  eapply rand_post_bind; [ apply rand_post_getScatterPosition | ]. intros scatter Hscatter.
  eapply rand_post_bind; [ apply rand_post_Math_random | ]. intros u_rx Hrx.
  eapply rand_post_bind; [ apply rand_post_Math_random | ]. intros u_ry Hry.
  eapply rand_post_bind; [ apply rand_post_Math_random | ]. intros u_speed Hspeed.
  eapply rand_post_bind; [ apply rand_post_Math_random | ]. intros u_phase Hphase.
  apply rand_post_ret.
  unfold ornament_item_ok.
  cbn [treePos scatterPos rotation scale speed phase ex ey ez].
  pose proof PI_RGT_0 as Hpi.
  split; [ exact Htree | ]. split; [ exact Hscatter | ].
  split; [ nra | ]. split; [ nra | ]. split; [ reflexivity | ].
  split; [ | split; [ | nra ] ].
  - destruct type; try destruct Hb as [Hb | Hb]; subst scaleBase; lra.
  - subst weight. destruct type; nra.
Qed.

Lemma rand_post_push_items (type : Ornaments.OrnamentType) (n : nat) :
  forall items,
    Forall (ornament_item_ok type) items ->
    rand_post (Ornaments.push_items type n items) (Forall (ornament_item_ok type)).
Proof.
  induction n as [| n IH]; intros items Hitems; cbn [Ornaments.push_items].
  - now apply rand_post_ret.
  - eapply rand_post_bind; [ apply rand_post_make_item | ].
    intros item Hitem. apply IH.
    apply Forall_app. split; [ exact Hitems | now constructor ].
Qed.

(** Every ornament that the construction pushes has its tree position
    inside the cone, its scattered position in the ball of radius 25, a
    rest orientation about x and y only, and a scale and a speed in the
    range of its type. *)
Theorem ornament_data_invariant
    (type : Ornaments.OrnamentType) (count : Z) (s : Draws) :
  in_unit_interval s ->
  Forall (ornament_item_ok type) (fst (Ornaments.data type count s)).
Proof.
  intros Hs. unfold Ornaments.data.
  exact (proj1 (@rand_post_push_items type (Z.to_nat count) [] (Forall_nil _) s Hs)).
Qed.

Lemma ornament_data_invariant_witness :
  in_unit_interval (constant_draws (1 / 2))
  /\ Forall (ornament_item_ok Ornaments.star)
            (fst (Ornaments.data Ornaments.star 3 (constant_draws (1 / 2)))).
Proof.
  assert (H : in_unit_interval (constant_draws (1 / 2)))
    by (intros n; unfold constant_draws; lra).
  split; [ exact H | exact (@ornament_data_invariant Ornaments.star 3 _ H) ].
Defined.

End OrnamentData.

(* ================================================================== *)
(** * The gift boxes *)

Section GiftData.
Local Open Scope R_scope.

Lemma squares_zero (x y z : R) : x * x + y * y + z * z = 0 -> x = 0 /\ y = 0 /\ z = 0.
Proof. intros H. repeat split; nra. Qed.

(** [normalize] returns a vector of length 1, except on the zero vector,
    which it returns unchanged. *)
Lemma normalize_length (v : Vector3 R) :
  Vector3_length (normalize v) = 1 \/ normalize v = vzero.
Proof.
  destruct v as [x y z]. unfold normalize, Vector3_length. cbn [vx vy vz].
  set (q := x * x + y * y + z * z).
  assert (Hq : 0 <= q) by (unfold q; nra).
  destruct (Req_dec_T (sqrt q) 0) as [Hzero | Hnz].
  - right. apply sqrt_eq_0 in Hzero; [ | exact Hq ].
    destruct (squares_zero Hzero) as (-> & -> & ->).
    unfold vzero. apply vector_ext; field.
  - left.
    assert (Hsq : sqrt q * sqrt q = q) by (now apply sqrt_sqrt).
    assert (Hlen : 0 < sqrt q).
    { destruct (sqrt_pos q) as [Hp | Hp]; [ exact Hp | congruence ]. }
    set (L := sqrt q) in *.
    replace (x * (1 / L) * (x * (1 / L)) + y * (1 / L) * (y * (1 / L))
             + z * (1 / L) * (z * (1 / L)))
      with (q / (L * L)) by (unfold q; field; lra).
    rewrite Hsq.
    replace (q / q) with 1 by (field; nra).
    apply sqrt_1.
Qed.

Lemma polar_radius' (r angle y : R) :
  0 <= r ->
  Geometry.horizontal_radius (mkVector3 (cos angle * r) y (sin angle * r)) = r.
Proof.
  intros Hr. rewrite (Rmult_comm (cos angle)), (Rmult_comm (sin angle)).
  now apply polar_radius.
Qed.

Lemma rand_post_gift_make_item :
  rand_post BottomGifts.make_item gift_item_ok.
Proof.
  unfold BottomGifts.make_item.
  eapply rand_post_bind; [ apply rand_post_Math_random | ]. intros u_angle Hangle.
  eapply rand_post_bind; [ apply rand_post_Math_random | ]. intros u_r Hr.
  eapply rand_post_bind; [ apply rand_post_Math_random | ]. intros u_s Hsc.
  eapply rand_post_bind; [ apply rand_post_getScatterPosition | ]. intros scatter Hscatter.
  eapply rand_post_bind; [ apply rand_post_Math_random | ]. intros u_rot Hrot.
  eapply rand_post_bind; [ apply rand_post_Math_random | ]. intros a_x Hax.
  eapply rand_post_bind; [ apply rand_post_Math_random | ]. intros a_y Hay.
  eapply rand_post_bind; [ apply rand_post_Math_random | ]. intros a_z Haz.
  eapply rand_post_bind; [ apply rand_post_Math_random | ]. intros u_phase Hphase.
  eapply rand_post_bind; [ apply rand_post_Math_random | ]. intros u_speed Hspeed.
  apply rand_post_ret.
  unfold gift_item_ok.
  cbn [BottomGifts.treePos BottomGifts.scatterPos BottomGifts.rotationY
       BottomGifts.tumbleAxis BottomGifts.scale BottomGifts.phase
       BottomGifts.speed vy].
  pose proof PI_RGT_0 as Hpi.
  split; [ lra | ]. split; [ lra | ].
  split; [ rewrite polar_radius'; lra | ].
  split; [ exact Hscatter | ].
  split; [ nra | ].
  split; [ apply normalize_length | ].
  split; [ nra | lra ].
Qed.

Lemma rand_post_map_make (n : nat) :
  rand_post (BottomGifts.map_make n)
            (fun items => length items = n /\ Forall gift_item_ok items).
Proof.
  induction n as [| n IH]; cbn [BottomGifts.map_make].
  - apply rand_post_ret. split; [ reflexivity | constructor ].
  - eapply rand_post_bind; [ apply rand_post_gift_make_item | ].
    intros item Hitem.
    eapply rand_post_bind; [ exact IH | ].
    intros rest [Hlen Hrest]. apply rand_post_ret.
    split; [ cbn; now rewrite Hlen | now constructor ].
Qed.

(** There are exactly twelve gift boxes.  Each one has a scale in
    [[0.4, 0.8)], rests with its bottom face on the floor [y = -7], stands
    at a horizontal distance in [[3, 7)] from the trunk, has its scattered
    position in the ball of radius 25, a rest yaw in [[0, 2 pi)], a speed in
    [[0.5, 1.5)], and a tumble axis of length 1 (or the zero vector, when
    the three draws for it are all zero). *)
Theorem gift_data_invariant (s : Draws) :
  in_unit_interval s ->
  length (fst (BottomGifts.data s)) = 12%nat
  /\ Forall gift_item_ok (fst (BottomGifts.data s)).
Proof.
  intros Hs. unfold BottomGifts.data.
  destruct (rand_post_map_make (Z.to_nat BottomGifts.GIFT_COUNT) Hs) as [[Hlen Hok] _].
  split; [ exact Hlen | exact Hok ].
Qed.

Lemma gift_data_invariant_witness :
  in_unit_interval (constant_draws (1 / 3))
  /\ length (fst (BottomGifts.data (constant_draws (1 / 3)))) = 12%nat.
Proof.
  assert (H : in_unit_interval (constant_draws (1 / 3)))
    by (intros n; unfold constant_draws; lra).
  split; [ exact H | exact (proj1 (gift_data_invariant H)) ].
Defined.

End GiftData.

(* ================================================================== *)
(** * Typed arrays *)

Section ArrayFacts.

Lemma Float32Array_length (n : nat) : length (Float32Array n) = n.
Proof. apply repeat_length. Qed.

Lemma write_at_length (i : nat) (v : R) (arr : list R) :
  length (write_at i v arr) = length arr.
Proof.
  revert i. induction arr as [| a arr IH]; intros [| i]; cbn; auto.
Qed.

Lemma nth_write_at_eq (i : nat) (v : R) (arr : list R) (d : R) :
  (i < length arr)%nat -> nth i (write_at i v arr) d = v.
Proof.
  revert i. induction arr as [| a arr IH]; intros [| i] Hi; cbn in *;
    try lia; [ reflexivity | apply IH; lia ].
Qed.

Lemma nth_write_at_neq (i j : nat) (v : R) (arr : list R) (d : R) :
  i <> j -> nth j (write_at i v arr) d = nth j arr d.
Proof.
  revert i j. induction arr as [| a arr IH]; intros [| i] [| j] Hij; cbn;
    try reflexivity; try congruence.
  apply IH. congruence.
Qed.

(** A write past the end changes nothing. *)
Lemma write_at_out_of_range (i : nat) (v : R) (arr : list R) :
  (length arr <= i)%nat -> write_at i v arr = arr.
Proof.
  revert i. induction arr as [| a arr IH]; intros [| i] Hi; cbn in *;
    try reflexivity; try lia.
  f_equal. apply IH. lia.
Qed.

Lemma write3_length (i : nat) (v : Vector3 R) (arr : list R) :
  length (write3 i v arr) = length arr.
Proof. unfold write3. now rewrite !write_at_length. Qed.

Lemma read3_write3_eq (i : nat) (v : Vector3 R) (arr : list R) :
  (i * 3 + 2 < length arr)%nat -> read3 (write3 i v arr) i = v.
Proof.
  intros Hi. unfold read3, write3. destruct v as [x y z]. cbn [vx vy vz].
  f_equal.
  - rewrite nth_write_at_neq by lia. rewrite nth_write_at_neq by lia.
    apply nth_write_at_eq. lia.
  - rewrite nth_write_at_neq by lia.
    apply nth_write_at_eq. rewrite write_at_length. lia.
  - apply nth_write_at_eq. rewrite !write_at_length. lia.
Qed.

Lemma read3_write3_neq (i j : nat) (v : Vector3 R) (arr : list R) :
  i <> j -> read3 (write3 i v arr) j = read3 arr j.
Proof.
  intros Hij. unfold read3, write3.
  f_equal; now rewrite !nth_write_at_neq by lia.
Qed.

Lemma read1_write_at_eq (i : nat) (v : R) (arr : list R) :
  (i < length arr)%nat -> read1 (write_at i v arr) i = v.
Proof. apply nth_write_at_eq. Qed.

Lemma read1_write_at_neq (i j : nat) (v : R) (arr : list R) :
  i <> j -> read1 (write_at i v arr) j = read1 arr j.
Proof. apply nth_write_at_neq. Qed.

End ArrayFacts.

(* ================================================================== *)
(** * The arrays of the two shader-driven populations *)

Section GeometryData.
Local Open Scope R_scope.




Lemma particle_fill_keeps (count i : nat) (d : BottomParticles.ParticleData) :
  (i < count)%nat ->
  particle_data_ok count i d ->
  rand_post (BottomParticles.fill i d) (particle_data_ok count (S i)).
Proof.
  intros Hi (Hp & Hsp & Hr & Hs & Hc & Hfilled).
  unfold BottomParticles.fill.
  eapply rand_post_bind; [ apply rand_post_Math_random | ]. intros u_radius Hradius.
  eapply rand_post_bind; [ apply rand_post_Math_random | ]. intros u_angle Hangle.
  eapply rand_post_bind; [ apply rand_post_Math_random | ]. intros u_y Hy.
  eapply rand_post_bind; [ apply rand_post_getScatterPosition | ]. intros scat Hscat.
  eapply rand_post_bind; [ apply rand_post_Math_random | ]. intros u_rand Hrand.
  eapply rand_post_bind; [ apply rand_post_Math_random | ]. intros u_speed Hspeed.
  eapply rand_post_bind; [ apply rand_post_Math_random | ]. intros u_scale Hscale.
  apply rand_post_ret.
  unfold particle_data_ok.
  cbn [BottomParticles.positions BottomParticles.scatterPositions
       BottomParticles.randoms BottomParticles.speeds BottomParticles.scales].
  rewrite !write3_length, !write_at_length.
  repeat (split; [ assumption | ]).
  intros j Hj.
  destruct (Nat.eq_dec i j) as [<- | Hne].
  - rewrite !read3_write3_eq by lia. rewrite !read1_write_at_eq by lia.
    cbn [vy].
    destruct (sqrt_unit Hradius) as [Hq0 Hq1].
    split; [ rewrite polar_radius'; nra | ].
    split; [ lra | ]. split; [ exact Hscat | ].
    split; [ exact Hrand | ]. split; lra.
  - rewrite !read3_write3_neq by exact Hne.
    rewrite !read1_write_at_neq by exact Hne.
    apply Hfilled. lia.
Qed.

(** The arrays of the star particles are fully written: every base
    position lies less than 6.5 from the vertical axis and within one unit
    above the floor [y = -7], every scattered position is in the ball of
    radius 25, every speed is in [[0.5, 1)] and every scale in
    [[0.5, 1.3)]. *)
Theorem particle_arrays_invariant (count : nat) (s : Draws) :
  in_unit_interval s ->
  particle_data_ok count count (fst (BottomParticles.geometry_data count s)).
Proof.
  intros Hs. unfold BottomParticles.geometry_data. cbv zeta.
  refine (proj1 (@for_loop_invariant _ BottomParticles.fill (particle_data_ok count)
                   count (@particle_fill_keeps count) count 0%nat _ eq_refl _ s Hs)).
  unfold particle_data_ok.
  cbn [BottomParticles.positions BottomParticles.scatterPositions
       BottomParticles.randoms BottomParticles.speeds BottomParticles.scales].
  rewrite !Float32Array_length.
  repeat (split; [ reflexivity | ]). intros j Hj. lia.
Qed.

Lemma particle_arrays_invariant_witness :
  in_unit_interval (constant_draws (1 / 2))
  /\ particle_data_ok (Z.to_nat BottomParticles.COUNT) (Z.to_nat BottomParticles.COUNT)
                      (fst (BottomParticles.data (constant_draws (1 / 2)))).
Proof.
  assert (H : in_unit_interval (constant_draws (1 / 2)))
    by (intros n; unfold constant_draws; lra).
  split; [ exact H | ].
  exact (@particle_arrays_invariant (Z.to_nat BottomParticles.COUNT) _ H).
Defined.

End GeometryData.

(* ================================================================== *)
(** * More of the two shaders *)

Section EasingFacts.
Local Open Scope R_scope.

Lemma cube_monotone (a b : R) : 0 <= a <= b -> a ^ 3 <= b ^ 3.
Proof. intros H. now apply pow_incr. Qed.

Lemma cube_unit (a : R) : 0 <= a <= 1 -> 0 <= a ^ 3 <= 1.
Proof.
  intros H. split.
  - apply pow_le. lra.
  - replace 1 with (1 ^ 3) by ring. now apply pow_incr.
Qed.

Lemma cubic_ease_unit (p : R) : 0 <= p <= 1 -> 0 <= cubic_ease p <= 1.
Proof.
  intros Hp. unfold cubic_ease.
  destruct (Rlt_dec p 0.5) as [Hlt | Hge].
  - assert (H := cube_unit (a := 2 * p)). assert (H' : 0 <= 2 * p <= 1) by lra.
    specialize (H H'). replace ((2 * p) ^ 3) with (8 * p ^ 3) in H by ring. lra.
  - assert (H' : 0 <= -2 * p + 2 <= 1) by lra.
    pose proof (cube_unit H'). lra.
Qed.

Lemma cubic_ease_monotone (p q : R) :
  0 <= p -> p <= q -> q <= 1 -> cubic_ease p <= cubic_ease q.
Proof.
  intros H0 Hpq H1. unfold cubic_ease.
  destruct (Rlt_dec p 0.5) as [Hp | Hp]; destruct (Rlt_dec q 0.5) as [Hq | Hq].
  - assert (H : p ^ 3 <= q ^ 3) by (apply cube_monotone; lra). lra.
  - assert (Hp3 : (2 * p) ^ 3 <= 1 ^ 3) by (apply cube_monotone; lra).
    assert (Hq' : 0 <= -2 * q + 2 <= 1) by lra.
    pose proof (cube_unit Hq') as Hq3.
    replace ((2 * p) ^ 3) with (8 * p ^ 3) in Hp3 by ring.
    replace (1 ^ 3) with 1 in Hp3 by ring. lra.
  - lra.
  - assert (H : (-2 * q + 2) ^ 3 <= (-2 * p + 2) ^ 3) by (apply cube_monotone; lra).
    lra.
Qed.

Lemma cubic_ease_symmetric (p : R) : cubic_ease (1 - p) = 1 - cubic_ease p.
Proof.
  unfold cubic_ease.
  destruct (Rlt_dec p 0.5) as [Hp | Hp]; destruct (Rlt_dec (1 - p) 0.5) as [Hq | Hq].
  - lra.
  - field.
  - field.
  - assert (Hhalf : p = 1 / 2) by lra. subst p. lra.
Qed.

(** The easing of both shaders maps [[0, 1]] into [[0, 1]], is monotone
    there, fixes 0, 1/2 and 1, and is symmetric about the midpoint:
    [ease (1 - p) = 1 - ease p]. *)
Theorem easing_monotone_and_symmetric (p q : R) :
  0 <= p -> p <= q -> q <= 1 ->
  exists tp tq : R,
    Foliage.easeInOutCubic p = Some tp
    /\ Foliage.easeInOutCubic q = Some tq
    /\ BottomParticles.easeInOutCubic p = Some tp
    /\ 0 <= tp /\ tp <= tq /\ tq <= 1
    /\ Foliage.easeInOutCubic (1 - p) = Some (1 - tp)
    /\ Foliage.easeInOutCubic 0 = Some 0
    /\ Foliage.easeInOutCubic (1 / 2) = Some (1 / 2)
    /\ Foliage.easeInOutCubic 1 = Some 1.
Proof.
  intros H0 Hpq H1.
  assert (Hp : 0 <= p <= 1) by lra.
  assert (Hq : 0 <= q <= 1) by lra.
  assert (Hp' : 0 <= 1 - p <= 1) by lra.
  assert (Hhalf : 0 <= 1 / 2 <= 1) by lra.
  assert (Hzero : 0 <= 0 <= 1) by lra.
  assert (Hone : 0 <= 1 <= 1) by lra.
  exists (cubic_ease p), (cubic_ease q).
  rewrite (Foliage_ease Hp), (Foliage_ease Hq), (BottomParticles_ease Hp),
    (Foliage_ease Hp'), (Foliage_ease Hhalf), (Foliage_ease Hzero), (Foliage_ease Hone).
  rewrite cubic_ease_symmetric, cubic_ease_0, cubic_ease_1.
  repeat split.
  - apply (cubic_ease_unit Hp).
  - now apply cubic_ease_monotone.
  - apply (cubic_ease_unit Hq).
  - f_equal. unfold cubic_ease. destruct (Rlt_dec (1 / 2) 0.5); lra.
Qed.

Lemma easing_monotone_and_symmetric_witness :
  0 <= 1 / 4 /\ 1 / 4 <= 3 / 4 /\ 3 / 4 <= 1
  /\ exists tp tq : R,
       Foliage.easeInOutCubic (1 / 4) = Some tp
       /\ Foliage.easeInOutCubic (3 / 4) = Some tq
       /\ BottomParticles.easeInOutCubic (1 / 4) = Some tp
       /\ 0 <= tp /\ tp <= tq /\ tq <= 1
       /\ Foliage.easeInOutCubic (1 - 1 / 4) = Some (1 - tp)
       /\ Foliage.easeInOutCubic 0 = Some 0
       /\ Foliage.easeInOutCubic (1 / 2) = Some (1 / 2)
       /\ Foliage.easeInOutCubic 1 = Some 1.
Proof.
  assert (H0 : 0 <= 1 / 4) by lra.
  assert (H1 : 1 / 4 <= 3 / 4) by lra.
  assert (H2 : 3 / 4 <= 1) by lra.
  repeat (split; [ assumption | ]).
  exact (easing_monotone_and_symmetric H0 H1 H2).
Defined.

(** Outside [[0, 1]].  For a progress above 1 the easing raises a negative
    base to the power 3, which GLSL leaves undefined, and neither shader has
    a defined position; for a progress below 0 the easing is [4 p^3], a
    negative number: the mix extrapolates beyond the scattered position. *)
Theorem easing_outside_unit_interval
    (p time : R) (a : Foliage.Attributes) (b : BottomParticles.Attributes) :
  (1 < p ->
     Foliage.easeInOutCubic p = None
     /\ BottomParticles.easeInOutCubic p = None
     /\ Foliage.main (mkUniforms time p) a = None
     /\ BottomParticles.main (mkUniforms time p) b = None)
  /\ (p < 0 ->
        Foliage.easeInOutCubic p = Some (4 * p ^ 3)
        /\ BottomParticles.easeInOutCubic p = Some (4 * p ^ 3)
        /\ 4 * p ^ 3 < 0).
Proof.
  split.
  - intros Hp.
    assert (He : Foliage.easeInOutCubic p = None).
    { unfold Foliage.easeInOutCubic.
      destruct (Rlt_dec p 0.5); [ lra | ].
      now rewrite pow_negative_base by lra. }
    split; [ exact He | ]. split; [ exact He | ]. split.
    + unfold Foliage.main, Foliage.mixed_position. cbn [uProgress]. now rewrite He.
    + unfold BottomParticles.main. cbn [uProgress].
      change (BottomParticles.easeInOutCubic p) with (Foliage.easeInOutCubic p).
      now rewrite He.
  - intros Hp.
    assert (He : Foliage.easeInOutCubic p = Some (4 * p ^ 3)).
    { unfold Foliage.easeInOutCubic.
      destruct (Rlt_dec p 0.5); [ f_equal; lra | lra ]. }
    split; [ exact He | ]. split; [ exact He | ].
    assert (Hc : 0 < (- p) ^ 3) by (apply pow_lt; lra).
    replace ((- p) ^ 3) with (- p ^ 3) in Hc by ring. lra.
Qed.

End EasingFacts.

Section ShaderOutputs.
Local Open Scope R_scope.

Lemma sin_scaled_bound (x a : R) : 0 <= a -> Rabs (sin x * a) <= a.
Proof.
  intros Ha. pose proof (SIN_bound x) as [Hl Hu].
  apply Rabs_le. split; nra.
Qed.

Lemma cos_scaled_bound (x a : R) : 0 <= a -> Rabs (cos x * a) <= a.
Proof.
  intros Ha. pose proof (COS_bound x) as [Hl Hu].
  apply Rabs_le. split; nra.
Qed.

Lemma clamp_unit (x : R) : 0 <= GLSL.clamp x 0.0 1.0 <= 1.
Proof.
  unfold GLSL.clamp, Rmin, Rmax.
  destruct (Rle_dec x 0.0); destruct (Rle_dec _ 1.0); lra.
Qed.

Lemma smoothstep_unit (edge0 edge1 x : R) :
  0 <= GLSL.smoothstep edge0 edge1 x <= 1.
Proof.
  unfold GLSL.smoothstep. cbv zeta.
  pose proof (clamp_unit ((x - edge0) / (edge1 - edge0))) as Hc.
  set (t := GLSL.clamp _ 0.0 1.0) in *.
  assert (Hlow : 0 <= t * t * (3 - 2 * t))
    by (apply Rmult_le_pos; [ apply Rmult_le_pos | ]; lra).
  assert (Hhigh : 0 <= (1 - t) * (1 - t) * (1 + 2 * t))
    by (apply Rmult_le_pos; [ apply Rmult_le_pos | ]; lra).
  replace ((1 - t) * (1 - t) * (1 + 2 * t)) with (1 - t * t * (3 - 2 * t)) in Hhigh
    by ring.
  replace (t * t * (3.0 - 2.0 * t)) with (t * t * (3 - 2 * t)) by lra.
  lra.
Qed.

(** [smoothstep] is 0 at and below its lower edge 0, and 1 from its upper
    edge on. *)
Lemma smoothstep_below (edge1 x : R) :
  0 < edge1 -> x <= 0 -> GLSL.smoothstep 0.0 edge1 x = 0.
Proof.
  intros He Hx. unfold GLSL.smoothstep, GLSL.clamp. cbv zeta.
  assert (Hq : (x - 0.0) / (edge1 - 0.0) <= 0).
  { replace (x - 0.0) with x by lra. replace (edge1 - 0.0) with edge1 by lra.
    pose proof (Rinv_0_lt_compat edge1 He). unfold Rdiv. nra. }
  set (q := (x - 0.0) / (edge1 - 0.0)) in *.
  unfold Rmin, Rmax. destruct (Rle_dec q 0.0); destruct (Rle_dec _ 1.0); nra.
Qed.

Lemma smoothstep_above (edge1 x : R) :
  0 < edge1 -> edge1 <= x -> GLSL.smoothstep 0.0 edge1 x = 1.
Proof.
  intros He Hx. unfold GLSL.smoothstep, GLSL.clamp. cbv zeta.
  assert (Hq : 1 <= (x - 0.0) / (edge1 - 0.0)).
  { replace (x - 0.0) with x by lra. replace (edge1 - 0.0) with edge1 by lra.
    apply (Rmult_le_reg_r edge1); [ exact He | ].
    replace (x / edge1 * edge1) with x by (field; lra). lra. }
  set (q := (x - 0.0) / (edge1 - 0.0)) in *.
  unfold Rmin, Rmax. destruct (Rle_dec q 0.0); destruct (Rle_dec _ 1.0); nra.
Qed.

(** [pow] with a base in [[0, 1]] and the exponent 1.5 is defined and stays
    in [[0, 1]]. *)
Lemma pow_unit (x : R) :
  0 <= x <= 1 -> exists v, GLSL.pow x 1.5 = Some v /\ 0 <= v <= 1.
Proof.
  intros [H0 H1]. unfold GLSL.pow.
  destruct (Rlt_dec 0 x) as [Hpos | Hnpos].
  - exists (Rpower x 1.5). split; [ reflexivity | ].
    unfold Rpower. split; [ left; apply exp_pos | ].
    destruct (Req_dec_T x 1) as [-> | Hne].
    + rewrite ln_1, Rmult_0_r, exp_0. lra.
    + assert (Hln : ln x < 0) by (rewrite <- ln_1; apply ln_increasing; lra).
      assert (Hlt : exp (1.5 * ln x) < exp 0) by (apply exp_increasing; lra).
      rewrite exp_0 in Hlt. lra.
  - destruct (Rlt_dec x 0); [ lra | ].
    destruct (Rlt_dec 0 1.5); [ | lra ].
    exists 0. split; [ reflexivity | lra ].
Qed.

Lemma pow_one (y : R) : GLSL.pow 1 y = Some 1.
Proof.
  unfold GLSL.pow. destruct (Rlt_dec 0 1); [ | lra ].
  f_equal. unfold Rpower. now rewrite ln_1, Rmult_0_r, exp_0.
Qed.

(** The foliage is rendered near its interpolated position: on each axis
    the wind moves a point by at most the noise amplitude, which shrinks
    from 0.8 to 0.15 as the eased progress [t] goes from 0 to 1 (plus the
    glitter jitter of at most 0.05 on the vertical axis); and its opacity
    factor stays in [[0.2, 1]]. *)
Theorem foliage_stays_near_mixed_position
    (p time : R) (a : Foliage.Attributes) :
  0 <= p <= 1 ->
  exists (t : R) (base pos : Vector3 R),
    Foliage.mixed_position (mkUniforms time p) a = Some (t, base)
    /\ Foliage.main (mkUniforms time p) a = Some pos
    /\ 0 <= t <= 1
    /\ Rabs (vx pos - vx base) <= 0.8 - 0.65 * t
    /\ Rabs (vy pos - vy base) <= 0.85 - 0.65 * t
    /\ Rabs (vz pos - vz base) <= 0.8 - 0.65 * t
    /\ 0.2 <= Foliage.vAlpha (mkUniforms time p) a <= 1.
Proof.
  intros Hp.
  pose proof (cubic_ease_unit Hp) as Ht.
  set (t := cubic_ease p) in *.
  exists t, (lerp3 (Foliage.aScatterPos a) (Foliage.aTreePos a) t),
         (vadd (lerp3 (Foliage.aScatterPos a) (Foliage.aTreePos a) t)
               (foliage_offset time t (Foliage.aRandom a))).
  split; [ exact (Foliage_mixed_position_eq time a Hp) | ].
  split; [ exact (Foliage_main_eq time a Hp) | ].
  split; [ exact Ht | ].
  unfold vadd, foliage_offset, GLSL.mix. cbv zeta. cbn [vx vy vz].
  set (amp := 0.8 * (1 - t) + 0.15 * t).
  assert (Hamp : 0 <= amp) by (unfold amp; lra).
  assert (Hamp' : amp = 0.8 - 0.65 * t) by (unfold amp; lra).
  split; [ | split; [ | split ] ].
  - match goal with |- Rabs (?b + ?o - ?b) <= _ => replace (b + o - b) with o by ring end.
    rewrite <- Hamp'. now apply sin_scaled_bound.
  - match goal with |- Rabs (?b + ?o - ?b) <= _ => replace (b + o - b) with o by ring end.
    eapply Rle_trans; [ apply Rabs_triang | ].
    match goal with |- Rabs (cos ?x * amp) + Rabs (sin ?y * 0.05) <= _ =>
      pose proof (@cos_scaled_bound x amp Hamp);
      assert (Rabs (sin y * 0.05) <= 0.05) by (apply sin_scaled_bound; lra) end.
    lra.
  - match goal with |- Rabs (?b + ?o - ?b) <= _ => replace (b + o - b) with o by ring end.
    rewrite <- Hamp'. now apply sin_scaled_bound.
  - unfold Foliage.vAlpha. cbn [uTime].
    match goal with |- context [sin ?x] => pose proof (SIN_bound x) end. lra.
Qed.

Lemma foliage_stays_near_mixed_position_witness :
  0 <= 1 <= 1
  /\ exists (t : R) (base pos : Vector3 R),
       Foliage.mixed_position (mkUniforms 2 1) (Foliage.mkAttributes vzero vzero 0)
       = Some (t, base)
       /\ Foliage.main (mkUniforms 2 1) (Foliage.mkAttributes vzero vzero 0) = Some pos
       /\ 0 <= t <= 1
       /\ Rabs (vx pos - vx base) <= 0.8 - 0.65 * t
       /\ Rabs (vy pos - vy base) <= 0.85 - 0.65 * t
       /\ Rabs (vz pos - vz base) <= 0.8 - 0.65 * t
       /\ 0.2 <= Foliage.vAlpha (mkUniforms 2 1) (Foliage.mkAttributes vzero vzero 0) <= 1.
Proof.
  assert (Hp : 0 <= 1 <= 1) by lra.
  split; [ exact Hp | ].
  exact (foliage_stays_near_mixed_position 2 (Foliage.mkAttributes vzero vzero 0) Hp).
Defined.

End ShaderOutputs.

Section FoliageFragment.
Local Open Scope R_scope.

Lemma length2_nonneg (x y : R) : 0 <= GLSL.length2 x y.
Proof. apply sqrt_pos. Qed.

Lemma length2_origin : GLSL.length2 0 0 = 0.
Proof.
  unfold GLSL.length2. replace (0 * 0 + 0 * 0) with 0 by ring. apply sqrt_0.
Qed.

(** The foliage fragment shader draws a disc.  A fragment farther than 0.5
    from the centre of its point is discarded.  Any other fragment gets a
    colour (the result is never undefined) and an opacity between 0 and the
    incoming [vAlpha]; its colour is the primary colour from distance 0.4
    on.  The centre of the point gets the highlight colour at the full
    incoming opacity. *)
Theorem foliage_fragment_is_a_disc
    (primary highlight : Vector3 R) (alpha : R) (pc : R * R) :
  0 <= alpha ->
  let dist := GLSL.length2 (fst pc - 0.5) (snd pc - 0.5) in
  (0.5 < dist -> Foliage.fragment_main primary highlight alpha pc = Discard)
  /\ (dist <= 0.5 ->
        exists (rgb : Vector3 R) (a : R),
          Foliage.fragment_main primary highlight alpha pc = FragColor rgb a
          /\ 0 <= a <= alpha
          /\ (0.4 <= dist -> rgb = primary))
  /\ Foliage.fragment_main primary highlight alpha (0.5, 0.5)
     = FragColor highlight alpha.
Proof.
  intros Halpha dist. split; [ | split ].
  - intros Hd. unfold Foliage.fragment_main. cbv zeta. fold dist.
    destruct (Rlt_dec 0.5 dist); [ reflexivity | lra ].
  - intros Hd. unfold Foliage.fragment_main. cbv zeta. fold dist.
    destruct (Rlt_dec 0.5 dist); [ lra | ].
    pose proof (length2_nonneg (fst pc - 0.5) (snd pc - 0.5)) as Hnn. fold dist in Hnn.
    assert (Hs : 0 <= 1.0 - dist * 2.0 <= 1) by lra.
    destruct (pow_unit Hs) as (v & Hv & Hv01). rewrite Hv.
    eexists. eexists. split; [ reflexivity | ]. split; [ nra | ].
    intros H04. rewrite smoothstep_above by lra.
    now rewrite mix3_lerp3, lerp3_1.
  - unfold Foliage.fragment_main. cbv zeta. cbn [fst snd].
    replace (0.5 - 0.5) with 0 by lra. rewrite length2_origin.
    destruct (Rlt_dec 0.5 0); [ lra | ].
    replace (1.0 - 0 * 2.0) with 1 by lra. rewrite pow_one.
    rewrite smoothstep_below by lra.
    rewrite mix3_lerp3, lerp3_0. f_equal. ring.
Qed.

Lemma foliage_fragment_is_a_disc_witness :
  0 <= 1
  /\ Foliage.fragment_main vzero (mkVector3 1 1 1) 1 (0.5, 0.5)
     = FragColor (mkVector3 1 1 1) 1.
Proof.
  assert (Ha : 0 <= 1) by lra.
  split; [ exact Ha | ].
  exact (proj2 (proj2 (@foliage_fragment_is_a_disc vzero (mkVector3 1 1 1) 1
                         (0.5, 0.5) Ha))).
Defined.

End FoliageFragment.

Section StarParticles.
Local Open Scope R_scope.

Lemma floor_bounds (x : R) : GLSL.floor x <= x < GLSL.floor x + 1.
Proof.
  unfold GLSL.floor. destruct (base_Int_part x) as [Hle Hgt]. lra.
Qed.

Lemma mod_range (x y : R) : 0 < y -> 0 <= GLSL.mod_ x y < y.
Proof.
  intros Hy. unfold GLSL.mod_.
  destruct (floor_bounds (x / y)) as [Hl Hu].
  set (f := GLSL.floor (x / y)) in *.
  assert (Heq : x - y * f = y * (x / y - f)) by (field; lra).
  rewrite Heq.
  assert (H1 : 0 <= y * (x / y - f)) by (apply Rmult_le_pos; lra).
  assert (H2 : y * (x / y - f) < y * 1) by (apply Rmult_lt_compat_l; lra).
  lra.
Qed.

Lemma rise_range (u : Uniforms R) (b : BottomParticles.Attributes) :
  0 <= BottomParticles.rise u b < 4.
Proof.
  unfold BottomParticles.rise.
  replace 4.0 with 4 by lra. apply mod_range. lra.
Qed.

Lemma lifeFade_unit (u : Uniforms R) (b : BottomParticles.Attributes) :
  0 <= BottomParticles.lifeFade u b <= 1.
Proof.
  unfold BottomParticles.lifeFade. cbv zeta.
  pose proof (smoothstep_unit 0.0 4.0 (BottomParticles.rise u b)) as H1.
  pose proof (smoothstep_unit 0.0 0.5 (BottomParticles.rise u b)) as H2.
  split; nra.
Qed.

(** A star particle rises from its base position by less than 4 units: for
    a progress in [[0, 1]] it is rendered on the vertical through the
    interpolated position, not below it and less than 4 above it, and its
    opacity factor stays in [[0, 1]]; at the very start of a rise
    ([rise = 0]) it is fully transparent. *)
Theorem star_particle_rise_and_fade
    (p time : R) (b : BottomParticles.Attributes) :
  0 <= p <= 1 ->
  let u := mkUniforms time p in
  exists (t : R) (pos : Vector3 R) (alpha : R),
    BottomParticles.easeInOutCubic p = Some t
    /\ BottomParticles.main u b = Some pos
    /\ BottomParticles.vAlpha u b = Some alpha
    /\ vx pos = lerp (vx (BottomParticles.aScatterPos b)) (vx (BottomParticles.aBasePos b)) t
    /\ vz pos = lerp (vz (BottomParticles.aScatterPos b)) (vz (BottomParticles.aBasePos b)) t
    /\ 0 <= vy pos
            - lerp (vy (BottomParticles.aScatterPos b)) (vy (BottomParticles.aBasePos b)) t
         < 4
    /\ 0 <= alpha <= 1
    /\ (BottomParticles.rise u b = 0 -> alpha = 0).
Proof.
  intros Hp u.
  pose proof (cubic_ease_unit Hp) as Ht.
  pose proof (rise_range u b) as Hrise.
  pose proof (lifeFade_unit u b) as Hfade.
  exists (cubic_ease p).
  exists (lerp3 (BottomParticles.aScatterPos b) (BottomParticles.animatedBasePos u b)
                (cubic_ease p)).
  exists (BottomParticles.lifeFade u b * GLSL.mix 0.3 1.0 (cubic_ease p)).
  split; [ exact (BottomParticles_ease Hp) | ].
  split; [ exact (BottomParticles_main_eq time b Hp) | ].
  split.
  { unfold BottomParticles.vAlpha. subst u. cbn [uProgress].
    now rewrite (BottomParticles_ease Hp). }
  set (t := cubic_ease p) in *.
  unfold lerp3, lerp, BottomParticles.animatedBasePos, GLSL.mix. cbn [vx vy vz].
  split; [ reflexivity | ]. split; [ reflexivity | ].
  split; [ split; nra | ].
  split; [ split; nra | ].
  intros Hzero. unfold BottomParticles.lifeFade. cbv zeta. rewrite Hzero.
  rewrite (smoothstep_below (edge1 := 0.5)) by lra. ring.
Qed.

Lemma star_particle_rise_and_fade_witness :
  0 <= 1 / 2 <= 1
  /\ exists (t : R) (pos : Vector3 R) (alpha : R),
       BottomParticles.easeInOutCubic (1 / 2) = Some t
       /\ BottomParticles.main (mkUniforms 0 (1 / 2))
            (BottomParticles.mkAttributes vzero vzero 0 1 1) = Some pos
       /\ BottomParticles.vAlpha (mkUniforms 0 (1 / 2))
            (BottomParticles.mkAttributes vzero vzero 0 1 1) = Some alpha
       /\ vx pos = lerp 0 0 t
       /\ vz pos = lerp 0 0 t
       /\ 0 <= vy pos - lerp 0 0 t < 4
       /\ 0 <= alpha <= 1
       /\ (BottomParticles.rise (mkUniforms 0 (1 / 2))
             (BottomParticles.mkAttributes vzero vzero 0 1 1) = 0 -> alpha = 0).
Proof.
  assert (Hp : 0 <= 1 / 2 <= 1) by lra.
  split; [ exact Hp | ].
  exact (star_particle_rise_and_fade 0 (BottomParticles.mkAttributes vzero vzero 0 1 1) Hp).
Defined.

End StarParticles.

Section StarFragment.
Local Open Scope R_scope.

Lemma Rmax_0_0 : Rmax 0 0.0 = 0.
Proof. unfold Rmax. destruct (Rle_dec 0 0.0); lra. Qed.

(** The centre of the point is not outside the star. *)
Lemma sdStar5_centre : BottomParticles.sdStar5 (0, 0) 0.5 0.45 <= 0.
Proof.
  unfold BottomParticles.sdStar5. cbv zeta. cbn [fst snd].
  rewrite Rabs_R0.
  repeat match goal with
         | |- context [Rmax ?e 0.0] =>
             progress (replace e with 0 by lra); rewrite Rmax_0_0
         end.
  repeat match goal with
         | |- context [Rabs ?e] => replace e with 0 by lra; rewrite Rabs_R0
         end.
  match goal with
  | |- GLSL.length2 ?a ?b * BottomParticles.GLSL_sign ?e <= 0 =>
      pose proof (length2_nonneg a b) as Hlen;
      assert (Hneg : e < 0) by lra;
      set (L := GLSL.length2 a b) in *
  end.
  unfold BottomParticles.GLSL_sign.
  match goal with |- context [Rlt_dec 0 ?e] => destruct (Rlt_dec 0 e); [ lra | ] end.
  match goal with |- context [Rlt_dec ?e 0] => destruct (Rlt_dec e 0); [ | lra ] end.
  lra.
Qed.

(** The star is mirror-symmetric about the vertical axis of the point. *)
Lemma sdStar5_mirror (x y r rf : R) :
  BottomParticles.sdStar5 (- x, y) r rf = BottomParticles.sdStar5 (x, y) r rf.
Proof. unfold BottomParticles.sdStar5. cbn [fst snd]. now rewrite Rabs_Ropp. Qed.

(** The fragment shader of the star particles.  A fragment that is kept
    gets an opacity between one hundredth of the incoming [vAlpha] and that
    [vAlpha]; no result is undefined.  Whatever the elapsed time and the
    particle's random attribute (its spin), the centre of the point is kept,
    white, at the full incoming opacity. *)
Theorem star_fragment_opacity
    (uColor : Vector3 R) (time alpha rnd : R) (pc : R * R) :
  0 <= alpha ->
  (forall (rgb : Vector3 R) (a : R),
     BottomParticles.fragment_main uColor time alpha rnd pc = FragColor rgb a ->
     0.01 * alpha <= a <= alpha)
  /\ BottomParticles.fragment_main uColor time alpha rnd pc <> UndefinedFragment
  /\ BottomParticles.fragment_main uColor time alpha rnd (0.5, 0.5)
     = FragColor (mkVector3 1 1 1) alpha.
Proof.
  intros Halpha. split; [ | split ].
  - intros rgb a. unfold BottomParticles.fragment_main. cbv zeta.
    match goal with
    | |- context [GLSL.smoothstep 0.0 0.02 ?d] =>
        pose proof (smoothstep_unit 0.0 0.02 d) as Hs;
        set (sm := GLSL.smoothstep 0.0 0.02 d) in *
    end.
    destruct (Rlt_dec (1.0 - sm) 0.01) as [Hlt | Hge]; [ discriminate | ].
    intros Heq. injection Heq as _ <-. split; nra.
  - unfold BottomParticles.fragment_main. cbv zeta.
    match goal with |- context [Rlt_dec ?e 0.01] => destruct (Rlt_dec e 0.01) end;
      discriminate.
  - unfold BottomParticles.fragment_main. cbv zeta. cbn [fst snd].
    replace (0.5 * 2.0 - 1.0) with 0 by lra.
    set (c := cos (time * (2.0 * (rnd - 0.5)))).
    set (s := sin (time * (2.0 * (rnd - 0.5)))).
    replace (c * 0 + s * 0) with 0 by ring.
    replace (- s * 0 + c * 0) with 0 by ring.
    rewrite (smoothstep_below (edge1 := 0.02)) by (try apply sdStar5_centre; lra).
    destruct (Rlt_dec (1.0 - 0) 0.01); [ lra | ].
    rewrite length2_origin.
    replace (0 * 1.5) with 0 by ring.
    rewrite mix3_lerp3, lerp3_0. f_equal.
    + apply vector_ext; lra.
    + lra.
Qed.

Lemma star_fragment_opacity_witness :
  0 <= 1
  /\ BottomParticles.fragment_main vzero 3 1 (1 / 4) (0.5, 0.5)
     = FragColor (mkVector3 1 1 1) 1.
Proof.
  assert (Ha : 0 <= 1) by lra.
  split; [ exact Ha | ].
  exact (proj2 (proj2 (@star_fragment_opacity vzero 3 1 (1 / 4) (0.5, 0.5) Ha))).
Defined.

End StarFragment.

(* ================================================================== *)
(** * More of the instanced rigid path *)

Section RigidMotion.
Local Open Scope R_scope.

Lemma breathing_factor (a b x : R) (s : R) :
  0 <= s -> 0 <= b -> s * (a - b) <= s * (a + b * sin x) <= s * (a + b).
Proof.
  intros Hs Hb. pose proof (SIN_bound x) as [Hl Hu].
  split; apply Rmult_le_compat_l; nra.
Qed.

(** A gift box floats near its interpolated position: for a progress [t]
    in [[0, 1]] it is rendered at most [1 - t] from it along x, at most
    [2 (1 - t)] along y and not at all along z; from 0.99 on it is rendered
    exactly there.  Its written scale is the same on the three axes and
    lies between 90% and 100% of its base scale. *)
Theorem gift_motion_bounds (item : BottomGifts.GiftItem R) (t time : R) :
  0 <= t <= 1 ->
  0 <= BottomGifts.scale item ->
  let m := BottomGifts.item_transform item t time in
  let base := lerp3 (BottomGifts.scatterPos item) (BottomGifts.treePos item) t in
  Rabs (vx (t_position m) - vx base) <= 1 - t
  /\ Rabs (vy (t_position m) - vy base) <= 2 * (1 - t)
  /\ vz (t_position m) = vz base
  /\ (0.99 <= t -> t_position m = base)
  /\ (exists k, t_scale m = mkVector3 k k k
                /\ 0.9 * BottomGifts.scale item <= k <= BottomGifts.scale item).
Proof.
  intros Ht Hs. cbv zeta. rewrite gift_position, gift_scale.
  unfold gift_offset.
  destruct (Rlt_dec t 0.99) as [Hlt | Hge].
  - unfold vadd. cbn [vx vy vz].
    split; [ | split; [ | split; [ | split ] ] ].
    + match goal with |- Rabs (?b + ?o - ?b) <= _ => replace (b + o - b) with o by ring end.
      match goal with |- Rabs (cos ?x * ?a * 0.5) <= _ =>
        replace (cos x * a * 0.5) with (cos x * (1 - t)) by lra;
        apply cos_scaled_bound; lra end.
    + match goal with |- Rabs (?b + ?o - ?b) <= _ => replace (b + o - b) with o by ring end.
      match goal with |- Rabs (sin ?x * ?a) <= _ =>
        replace a with (2 * (1 - t)) by lra;
        apply sin_scaled_bound; lra end.
    + ring.
    + intros H. lra.
    + eexists. split; [ reflexivity | ].
      pose proof (@breathing_factor 0.95 0.05 (time + BottomGifts.phase item)
                    (BottomGifts.scale item) Hs) as Hb.
      lra.
  - rewrite vadd_zero.
    split; [ | split; [ | split; [ | split ] ] ].
    + replace (vx _ - vx _) with 0 by ring. rewrite Rabs_R0. lra.
    + replace (vy _ - vy _) with 0 by ring. rewrite Rabs_R0. lra.
    + reflexivity.
    + reflexivity.
    + eexists. split; [ reflexivity | ].
      pose proof (@breathing_factor 0.95 0.05 (time + BottomGifts.phase item)
                    (BottomGifts.scale item) Hs) as Hb.
      lra.
Qed.

Lemma gift_motion_bounds_witness :
  0 <= 1 / 2 <= 1 /\ 0 <= 1
  /\ vz (t_position (BottomGifts.item_transform
                       (BottomGifts.mkGiftItem vzero vzero 0 vzero 1 0 1) (1 / 2) 3))
     = vz (lerp3 vzero vzero (1 / 2)).
Proof.
  assert (Ht : 0 <= 1 / 2 <= 1) by lra.
  assert (Hs : 0 <= 1) by lra.
  split; [ exact Ht | ]. split; [ exact Hs | ].
  exact (proj1 (proj2 (proj2
           (@gift_motion_bounds (BottomGifts.mkGiftItem vzero vzero 0 vzero 1 0 1)
              (1 / 2) 3 Ht Hs)))).
Defined.

(** An ornament floats near its interpolated position: for a progress [t]
    in [[0, 1]] it is rendered at most [amp (1 - t) / 2] from it along x and
    at most [amp (1 - t)] along y, with [amp] 3 for a star and 1.5
    otherwise, and not at all along z.  Its written scale is the same on
    the three axes and lies between 70% and 100% of its base scale. *)
Theorem ornament_motion_bounds
    (type : Ornaments.OrnamentType) (item : DualPosition R) (t time : R) :
  0 <= t <= 1 ->
  0 <= scale item ->
  let m := Ornaments.item_transform type item t time in
  let base := lerp3 (scatterPos item) (treePos item) t in
  let amp := match type with Ornaments.star => 3 | _ => 1.5 end in
  Rabs (vx (t_position m) - vx base) <= amp * (1 - t) / 2
  /\ Rabs (vy (t_position m) - vy base) <= amp * (1 - t)
  /\ vz (t_position m) = vz base
  /\ (exists k, t_scale m = mkVector3 k k k
                /\ 0.7 * scale item <= k <= scale item).
Proof.
  intros Ht Hs. cbv zeta. rewrite ornament_position, ornament_scale.
  unfold ornament_offset, vadd. cbv zeta. cbn [vx vy vz].
  set (amp := match type with Ornaments.star => 3 | _ => 1.5 end).
  assert (Hamp : (match type with Ornaments.star => 3.0 | _ => 1.5 end) = amp)
    by (unfold amp; destruct type; lra).
  rewrite Hamp.
  assert (Hpos : 0 <= amp) by (unfold amp; destruct type; lra).
  assert (Hfloat : 0 <= (1 - t) * amp) by (apply Rmult_le_pos; lra).
  split; [ | split; [ | split ] ].
  - match goal with |- Rabs (?b + ?o - ?b) <= _ => replace (b + o - b) with o by ring end.
    match goal with |- Rabs (cos ?x * ?a * 0.5) <= _ =>
      replace (cos x * a * 0.5) with (cos x * (amp * (1 - t) / 2)) by lra;
      apply cos_scaled_bound; lra end.
  - match goal with |- Rabs (?b + ?o - ?b) <= _ => replace (b + o - b) with o by ring end.
    match goal with |- Rabs (sin ?x * ?a) <= _ =>
      replace a with (amp * (1 - t)) by lra;
      apply sin_scaled_bound; lra end.
  - ring.
  - eexists. split; [ reflexivity | ].
    pose proof (@breathing_factor 0.85 0.15 (time * 2 + phase item) (scale item) Hs) as Hb.
    lra.
Qed.

Lemma ornament_motion_bounds_witness :
  0 <= 1 / 2 <= 1 /\ 0 <= 1
  /\ vz (t_position (Ornaments.item_transform Ornaments.star
                       (mkDualPosition vzero vzero (mkEuler 0 0 0) 1 1 0) (1 / 2) 3))
     = vz (lerp3 vzero vzero (1 / 2)).
Proof.
  assert (Ht : 0 <= 1 / 2 <= 1) by lra.
  assert (Hs : 0 <= 1) by lra.
  split; [ exact Ht | ]. split; [ exact Hs | ].
  exact (proj1 (proj2 (proj2
           (@ornament_motion_bounds Ornaments.star
              (mkDualPosition vzero vzero (mkEuler 0 0 0) 1 1 0) (1 / 2) 3 Ht Hs)))).
Defined.

End RigidMotion.

(* ================================================================== *)
(** * Whole frames *)

Section WholeFrames.
Local Open Scope R_scope.

Lemma TopStar_yaw_step (damp : R -> R -> R -> R -> R) (scatter : Vector3 R)
      (st : Ornaments.StarState R) (state : TreeState) (time delta : R) :
  ey (Ornaments.star_rotation
        (Ornaments.TopStar_useFrame damp true scatter st state time delta))
  = ey (Ornaments.star_rotation st) + delta * 0.8.
Proof.
  unfold Ornaments.TopStar_useFrame. cbn [negb].
  match goal with |- context [if ?c then _ else _] => destruct c end; reflexivity.
Qed.

(** The top star.  Each frame places it exactly on the segment from its
    scattered position to the anchor [(0, 7.8, 0)], at the progress the
    frame stored, with no offset.  Its yaw advances by [0.8 * delta]
    whatever the progress and the toggle state, so after any sequence of
    frames it has advanced by 0.8 times the total frame time.  Below
    progress 0.9 its tilt about x and about z is at most [1 - progress];
    from 0.9 on the tilt is handed to [damp] with target 0. *)
Theorem TopStar_motion
    (damp : R -> R -> R -> R -> R) (scatter : Vector3 R)
    (st : Ornaments.StarState R) (state : TreeState) (time delta : R)
    (frames : list (TreeState * R * R)) :
  let st' := Ornaments.TopStar_useFrame damp true scatter st state time delta in
  let t := Ornaments.progress st' in
  Ornaments.star_position st' = lerp3 scatter (mkVector3 0 7.8 0) t
  /\ (t = 1 -> Ornaments.star_position st' = mkVector3 0 7.8 0)
  /\ (t = 0 -> Ornaments.star_position st' = scatter)
  /\ (t < 0.9 -> t <= 1 ->
      Rabs (ex (Ornaments.star_rotation st')) <= 1 - t
      /\ Rabs (ez (Ornaments.star_rotation st')) <= 1 - t)
  /\ (0.9 <= t ->
      ex (Ornaments.star_rotation st')
      = damp (ex (Ornaments.star_rotation st)) 0 0.25 delta
      /\ ez (Ornaments.star_rotation st')
         = damp (ez (Ornaments.star_rotation st)) 0 0.25 delta)
  /\ ey (Ornaments.star_rotation
           (fold_left
              (fun s f =>
                 Ornaments.TopStar_useFrame damp true scatter s
                   (fst (fst f)) (snd (fst f)) (snd f))
              frames st))
     = ey (Ornaments.star_rotation st) + 0.8 * Rsum (map snd frames).
Proof.
  cbv zeta.
  assert (Hpos : Ornaments.star_position
                   (Ornaments.TopStar_useFrame damp true scatter st state time delta)
                 = lerp3 scatter (mkVector3 0 7.8 0)
                     (Ornaments.progress
                        (Ornaments.TopStar_useFrame damp true scatter st state time delta))).
  { unfold Ornaments.TopStar_useFrame. cbn [negb].
    match goal with |- context [if ?c then _ else _] => destruct c end;
      cbn [Ornaments.star_position Ornaments.progress];
      now rewrite lerpVectors_lerp3. }
  split; [ exact Hpos | ].
  split; [ intros H1; now rewrite Hpos, H1, lerp3_1 | ].
  split; [ intros H0; now rewrite Hpos, H0, lerp3_0 | ].
  split; [ | split ].
  - unfold Ornaments.TopStar_useFrame. cbn [negb]. real_ops. unfold Rltb.
    match goal with |- context [Rlt_dec ?a 0.9] => destruct (Rlt_dec a 0.9) as [Hlt | Hge] end;
      cbn [Ornaments.progress Ornaments.star_rotation ex ez]; intros H09 H1;
      [ | lra ].
    split; [ apply sin_scaled_bound | apply cos_scaled_bound ]; lra.
  - unfold Ornaments.TopStar_useFrame. cbn [negb]. real_ops. unfold Rltb.
    match goal with |- context [Rlt_dec ?a 0.9] => destruct (Rlt_dec a 0.9) as [Hlt | Hge] end;
      cbn [Ornaments.progress Ornaments.star_rotation ex ez]; intros H09;
      [ lra | split; reflexivity ].
  - clear Hpos. revert st. induction frames as [| f frames IH]; intros st0.
    + cbn. unfold Rsum. cbn. ring.
    + cbn [fold_left map]. rewrite IH, TopStar_yaw_step.
      unfold Rsum. cbn [fold_right]. ring.
Qed.

End WholeFrames.

(* ================================================================== *)
(** * The toggle, the outline of the top star, the assembled scene *)

Section SceneFacts.
Local Open Scope R_scope.

Lemma clicks_parity (n : nat) (st : TreeState) :
  App.clicks n st = if Nat.even n then st else App.toggleState st.
Proof.
  induction n as [| n IH]; [ reflexivity | ].
  cbn [App.clicks]. rewrite IH, Nat.even_succ, <- Nat.negb_even.
  destruct (Nat.even n), st; reflexivity.
Qed.

(** The toggle.  A click always changes the state, two clicks restore it,
    and the goal of every progress controller flips between 0 and 1 with
    it.  Starting from the initial state (the tree), the scene is the tree
    after an even number of clicks and scattered after an odd number; the
    button always names the move away from the current state. *)
Theorem toggle_flips_the_goal (st : TreeState) (n : nat) :
  App.toggleState st <> st
  /\ App.toggleState (App.toggleState st) = st
  /\ goal_of (N := R) (App.toggleState st) = 1 - goal_of st
  /\ App.clicks n App.initialState
     = (if Nat.even n then TREE_SHAPE else SCATTERED)
  /\ (App.buttonLabel st = App.DISASSEMBLE <-> goal_of (N := R) st = 1)
  /\ App.buttonLabel (App.toggleState st) <> App.buttonLabel st.
Proof.
  split; [ destruct st; discriminate | ].
  split; [ destruct st; reflexivity | ].
  split; [ destruct st; cbn; ring | ].
  split; [ rewrite clicks_parity; destruct (Nat.even n); reflexivity | ].
  split; [ | destruct st; discriminate ].
  destruct st; cbn; split; intros H; try reflexivity; try discriminate; lra.
Qed.

Lemma shape_vertex_distance (i : nat) :
  let v := Ornaments.shape_vertex i in
  sqrt (fst v * fst v + snd v * snd v)
  = if Nat.even i then 1 else 0.45.
Proof.
  unfold Ornaments.shape_vertex. cbv zeta. cbn [fst snd].
  set (a := INR i * PI / INR Ornaments.points - PI / 2).
  set (r := if Nat.even i then Ornaments.outerRadius else Ornaments.innerRadius).
  replace (cos a * r * (cos a * r) + sin a * r * (sin a * r))
    with (r * r * (sin a * sin a + cos a * cos a)) by ring.
  rewrite sin_cos_square, Rmult_1_r.
  assert (Hr : 0 <= r)
    by (unfold r, Ornaments.outerRadius, Ornaments.innerRadius;
        destruct (Nat.even i); lra).
  rewrite sqrt_square by exact Hr.
  unfold r, Ornaments.outerRadius, Ornaments.innerRadius.
  destruct (Nat.even i); lra.
Qed.

(** The outline of the top star has ten vertices, the [i]-th being
    [shape_vertex i]; they lie alternately at distance 1 (the five tips)
    and 0.45 (the five notches) from the centre, and the outline starts at
    the tip [(0, -1)]. *)
Theorem star_outline_alternates :
  length Ornaments.shape_vertices = 10%nat
  /\ (forall i, (i < 10)%nat ->
        let v := nth i Ornaments.shape_vertices (0, 0) in
        v = Ornaments.shape_vertex i
        /\ sqrt (fst v * fst v + snd v * snd v)
           = if Nat.even i then 1 else 0.45)
  /\ Ornaments.shape_vertex 0 = (0, -1).
Proof.
  split; [ reflexivity | ]. split.
  - intros i Hi. cbv zeta.
    assert (Hnth : nth i Ornaments.shape_vertices (0, 0) = Ornaments.shape_vertex i).
    { unfold Ornaments.shape_vertices.
      rewrite (nth_indep _ (0, 0) (Ornaments.shape_vertex 0))
        by (rewrite length_map, length_seq; exact Hi).
      rewrite (map_nth Ornaments.shape_vertex (seq 0 (Ornaments.points * 2)) 0%nat i).
      rewrite seq_nth by exact Hi. reflexivity. }
    rewrite Hnth. split; [ reflexivity | apply shape_vertex_distance ].
  - unfold Ornaments.shape_vertex. cbv zeta. cbn [Nat.even INR].
    replace (0 * PI / INR Ornaments.points - PI / 2) with (- (PI / 2))
      by (unfold Rdiv; ring).
    rewrite cos_neg, sin_neg, cos_PI2, sin_PI2.
    unfold Ornaments.outerRadius. f_equal; lra.
Qed.

(** The assembled scene.  At progress exactly 1 every ornament that the
    construction made is rendered inside the cone of the tree, and every
    gift box is rendered around the trunk, at a horizontal distance in
    [[3, 7)] and a height in [[-6.8, -6.6)], just above the floor. *)
Theorem assembled_scene_layout
    (type : Ornaments.OrnamentType) (count : Z) (time : R) (s : Draws) :
  in_unit_interval s ->
  Forall (fun item =>
            inside_cone (t_position (Ornaments.item_transform type item 1 time)))
         (fst (Ornaments.data type count s))
  /\ Forall (fun item =>
               let pos := t_position (BottomGifts.item_transform item 1 time) in
               3 <= Geometry.horizontal_radius pos < 7
               /\ -6.8 <= vy pos < -6.6)
            (fst (BottomGifts.data s)).
Proof.
  intros Hs. split.
  - destruct (@rand_post_push_items type (Z.to_nat count) [] (Forall_nil _) s Hs)
      as [Hall _].
    unfold Ornaments.data. revert Hall. apply Forall_impl.
    intros item (Hcone & _).
    now rewrite ornament_position, lerp3_1, ornament_offset_at_1, vadd_zero.
  - destruct (rand_post_map_make (Z.to_nat BottomGifts.GIFT_COUNT) Hs) as [[_ Hall] _].
    unfold BottomGifts.data. revert Hall. apply Forall_impl.
    intros item (Hscale & Hfloor & Hring & _). cbv zeta.
    rewrite gift_position, lerp3_1, gift_offset_at_1, vadd_zero.
    split; [ exact Hring | lra ].
Qed.

Lemma assembled_scene_layout_witness :
  in_unit_interval (constant_draws (1 / 2))
  /\ Forall (fun item =>
               inside_cone (t_position
                              (Ornaments.item_transform Ornaments.box item 1 0)))
            (fst (Ornaments.data Ornaments.box 2 (constant_draws (1 / 2)))).
Proof.
  assert (H : in_unit_interval (constant_draws (1 / 2)))
    by (intros n; unfold constant_draws; lra).
  split; [ exact H | ].
  exact (proj1 (@assembled_scene_layout Ornaments.box 2 0 _ H)).
Defined.

End SceneFacts.

Section PointSizes.
Local Open Scope R_scope.

(** The size of a point on screen.  For a point in front of the camera, at
    view-space depth [mv_z < 0], with attributes in the ranges that the
    construction gives them: a foliage point has a size between [75 / d] and
    [195 / d], and a star particle, for a progress in [[0, 1]], a size
    between [250 / d] and [1300 / d], where [d = - mv_z] is its distance
    in depth; both shrink as the point moves away. *)
Theorem point_sizes_shrink_with_depth
    (p time mv_z : R) (a : Foliage.Attributes) (b : BottomParticles.Attributes) :
  mv_z < 0 ->
  0 <= Foliage.aRandom a < 1 ->
  0.5 <= BottomParticles.aScale b < 1.3 ->
  0 <= p <= 1 ->
  75 / - mv_z <= Foliage.gl_PointSize a mv_z < 195 / - mv_z
  /\ exists size,
       BottomParticles.gl_PointSize (mkUniforms time p) b mv_z = Some size
       /\ 250 / - mv_z <= size < 1300 / - mv_z.
Proof.
  intros Hz Hr Hs Hp.
  assert (Hinv : 0 < / - mv_z) by (apply Rinv_0_lt_compat; lra).
  split.
  - unfold Foliage.gl_PointSize, Rdiv. split; nra.
  - unfold BottomParticles.gl_PointSize. cbn [uProgress].
    rewrite (BottomParticles_ease Hp).
    pose proof (cubic_ease_unit Hp) as Ht.
    eexists. split; [ reflexivity | ].
    unfold GLSL.mix, Rdiv. cbv zeta.
    set (t := cubic_ease p) in *.
    set (sc := BottomParticles.aScale b) in *.
    set (k := / - mv_z) in *.
    assert (Hst : 0.5 <= 0.5 * (1 - t) + 1.0 * t <= 1) by lra.
    set (q := 0.5 * (1 - t) + 1.0 * t) in *.
    assert (Hprod : 0.25 <= sc * q < 1.3) by nra.
    set (w := sc * q) in *.
    replace (50.0 * sc * q * (20.0 * k)) with (1000 * w * k) by (unfold w; lra).
    split; nra.
Qed.

Lemma point_sizes_shrink_with_depth_witness :
  -10 < 0 /\ 0 <= 1 / 2 < 1 /\ 0.5 <= 1 < 1.3 /\ 0 <= 1 <= 1
  /\ 75 / - -10
     <= Foliage.gl_PointSize (Foliage.mkAttributes vzero vzero (1 / 2)) (-10)
     < 195 / - -10.
Proof.
  assert (Hz : -10 < 0) by lra.
  assert (Hr : 0 <= 1 / 2 < 1) by lra.
  assert (Hs : 0.5 <= 1 < 1.3) by lra.
  assert (Hp : 0 <= 1 <= 1) by lra.
  repeat (split; [ assumption | ]).
  exact (proj1 (@point_sizes_shrink_with_depth 1 0 (-10)
                  (Foliage.mkAttributes vzero vzero (1 / 2))
                  (BottomParticles.mkAttributes vzero vzero 0 1 1) Hz Hr Hs Hp)).
Defined.

End PointSizes.
